(** * The movies API of server.js and the trailer helper of main.js

    A shallow embedding of the Express handlers of [src/server.js] (the
    SQLite table [movies], the poster uploads handled by multer, the
    filesystem calls) and of [getEmbedUrl] of [src/main.js], followed by the
    properties of the specification that were checked against them. *)

From Stdlib Require Import Ascii.
From stdpp Require Import gmap strings list sorting pretty.

Local Open Scope string_scope.
Local Open Scope Z_scope.

(** ** JavaScript values

    The fields of [req.body].  A multipart form only yields strings (or
    nothing, [JUndefined]); a JSON body parsed by [express.json()] also
    yields null, booleans and numbers.  Numbers are the integral ones;
    objects and arrays are left out. *)
Module JS.

Inductive value :=
| JUndefined
| JNull
| JBool (b : bool)
| JNum (n : Z)
| JStr (s : string).

#[global] Instance value_eq_dec : EqDecision value.
Proof. solve_decision. Defined.

(** ToBoolean: undefined, null, false, 0 and the empty string are falsy. *)
Definition truthy (v : value) : bool :=
  match v with
  | JUndefined | JNull => false
  | JBool b => b
  | JNum n => negb (n =? 0)
  | JStr s => negb (String.eqb s "")
  end.

(** [v || null] *)
Definition or_null (v : value) : value :=
  if truthy v then v else JNull.

End JS.

(** ** SQLite values, comparison and column affinity *)
Module Sqlite.

(** Storage classes NULL, INTEGER and TEXT.  REAL and BLOB are not
    modelled: no handler binds a buffer, and the numbers of [JS.value]
    are integral. *)
Inductive sqlval :=
| SNull
| SInt (n : Z)
| SText (s : string).

#[global] Instance sqlval_eq_dec : EqDecision sqlval.
Proof. solve_decision. Defined.

(** The order SQLite sorts by: NULL first, then numbers by value, then
    text by the bytes of the string (collation BINARY). *)
Definition compare (a b : sqlval) : comparison :=
  match a, b with
  | SNull, SNull => Eq
  | SNull, _ => Lt
  | _, SNull => Gt
  | SInt x, SInt y => Z.compare x y
  | SInt _, SText _ => Lt
  | SText _, SInt _ => Gt
  | SText s, SText t => String.compare s t
  end.

Definition lt (a b : sqlval) : Prop := compare a b = Lt.

(** *** Text that reads as an integer

    [sqlite3Atoi64]: optional white space, an optional sign, one or more
    digits, optional white space, and a value that fits 64 bits. *)
Definition is_space (c : ascii) : bool :=
  let n := N_of_ascii c in
  ((9 <=? n) && (n <=? 13) || (n =? 32))%N.

Definition digit_of (c : ascii) : option Z :=
  let n := Z.of_N (N_of_ascii c) in
  if (48 <=? n) && (n <=? 57) then Some (n - 48) else None.

Fixpoint skip_spaces (s : string) : string :=
  match s with
  | String c s' => if is_space c then skip_spaces s' else s
  | EmptyString => EmptyString
  end.

(** The digits of [s] up to trailing white space, most significant first,
    accumulated onto [acc]; [None] when another character shows up. *)
Fixpoint digits (acc : Z) (s : string) : option Z :=
  match s with
  | EmptyString => Some acc
  | String c s' =>
      match digit_of c with
      | Some d => digits (10 * acc + d) s'
      | None => if is_space c then
                  match skip_spaces s' with EmptyString => Some acc | _ => None end
                else None
      end
  end.

Definition starts_with_digit (s : string) : bool :=
  match s with
  | String c _ => bool_decide (is_Some (digit_of c))
  | EmptyString => false
  end.

Definition int64_min : Z := - 2 ^ 63.
Definition int64_max : Z := 2 ^ 63 - 1.

Definition parse_int (s : string) : option Z :=
  let s := skip_spaces s in
  let '(neg, body) :=
    match s with
    | String "-" s' => (true, s')
    | String "+" s' => (false, s')
    | _ => (false, s)
    end in
  if starts_with_digit body then
    n ← digits 0 body;
    let n := if neg then - n else n in
    if (int64_min <=? n) && (n <=? int64_max) then Some n else None
  else None.

(** Column affinity applied when a bound value is stored.  INTEGER: text
    that reads as an integer becomes that integer, other text stays text.
    TEXT: a number becomes text, so that a TEXT column holds NULL ([None])
    or text; the numbers that reach a TEXT column were bound from
    JavaScript, as doubles, and SQLite writes the double 5 as [5.0] (the
    form it uses up to fifteen digits). *)
Definition integer_affinity (v : sqlval) : sqlval :=
  match v with
  | SText s => match parse_int s with Some n => SInt n | None => SText s end
  | _ => v
  end.

Definition text_affinity (v : sqlval) : option string :=
  match v with
  | SNull => None
  | SInt n => Some (pretty n ++ ".0")
  | SText s => Some s
  end.

End Sqlite.

Export Sqlite(sqlval(..)).
Export JS(value(..)).

(** ** The table [movies] *)
Module Movie.

(** One row, with the columns of the CREATE TABLE statement: [title] is
    TEXT NOT NULL, [year] has INTEGER affinity (and may hold text that does
    not read as an integer), the other columns are TEXT and may be NULL;
    the two timestamps always hold the text of CURRENT_TIMESTAMP. *)
Record t := {
  id : Z;
  title : string;
  year : sqlval;
  poster_url : option string;
  poster_local : option string;
  dop : option string;
  bobo_crew : option string;
  imdb_url : option string;
  tmdb_url : option string;
  trailer_url : option string;
  production_company : option string;
  synopsis : option string;
  created_at : string;
  updated_at : string
}.

#[global] Instance eq_dec : EqDecision t.
Proof. solve_decision. Defined.

(** [ORDER BY year DESC, title ASC] as a comparison of two rows: [a] may
    come before [b]. *)
Definition order_by (a b : t) : Prop :=
  match Sqlite.compare (year a) (year b) with
  | Gt => True
  | Lt => False
  | Eq => String.le (title a) (title b)
  end.

#[global] Instance order_by_dec : RelDecision order_by.
Proof. intros a b. unfold order_by. destruct (Sqlite.compare _ _); apply _. Defined.

End Movie.

(** The database file: the rows by rowid, and the counter that
    AUTOINCREMENT keeps in [sqlite_sequence] (the largest rowid ever given
    out by the table). *)
Record database := {
  rows : gmap Z Movie.t;
  sqlite_sequence : Z
}.

(** What a handler leaves behind, in the order it happened. *)
Inductive event :=
| FsWrite (path : string)
| FsUnlink (path : string)
| DbInsert (rowid : Z)
| DbUpdate (rowid : Z) (poster : option string)
| DbDelete (rowid : Z).

(** The server's surroundings: the database, the files below [__dirname]
    (a path is kept relative to [__dirname], so [path.join(__dirname, p)]
    is [p]), the files that cannot be unlinked (a failing [fs.unlinkSync]),
    and the history of effects. *)
Record world := {
  db : database;
  files : gset string;
  undeletable : gset string;
  log : list event
}.

(** What a request reads from outside: [Date.now()],
    [Math.round(Math.random() * 1E9)] and SQLite's CURRENT_TIMESTAMP. *)
Record env := {
  date_now : Z;
  random_1e9 : Z;
  current_timestamp : string
}.

(** ** Computations that change the world and may throw

    A JavaScript exception leaves the effects made so far in place, so the
    world is returned on both branches. *)
Inductive outcome (A : Type) :=
| Return (a : A)
| Throw (message : string).
Arguments Return {A} a.
Arguments Throw {A} message.

Definition M (A : Type) : Type := world → outcome A * world.

#[global] Instance M_ret : MRet M := λ A a w, (Return a, w).
#[global] Instance M_bind : MBind M := λ A B f m w,
  match m w with
  | (Return a, w') => f a w'
  | (Throw msg, w') => (Throw msg, w')
  end.

#[global] Instance M_fmap : FMap M := λ A B f m, a ← m; mret (f a).

Definition throw {A} (msg : string) : M A := λ w, (Throw msg, w).

(** [try { body } catch (error) { handler(error.message) }] *)
Definition try_catch {A} (body : M A) (handler : string → M A) : M A := λ w,
  match body w with
  | (Return a, w') => (Return a, w')
  | (Throw msg, w') => handler msg w'
  end.

(** [if (c) { body }] *)
Definition when (c : bool) (body : M unit) : M unit :=
  if c then body else mret ().

Definition get_world : M world := λ w, (Return w, w).
Definition with_db (d : database) (w : world) : world :=
  {| db := d; files := files w; undeletable := undeletable w; log := log w |}.
Definition with_files (fs : gset string) (w : world) : world :=
  {| db := db w; files := fs; undeletable := undeletable w; log := log w |}.
Definition logged (ev : event) (w : world) : world :=
  {| db := db w; files := files w; undeletable := undeletable w; log := log w ++ [ev] |}.

Definition emit (ev : event) : M unit := λ w, (Return (), logged ev w).
Definition set_db (d : database) : M unit := λ w, (Return (), with_db d w).
Definition set_files (fs : gset string) : M unit := λ w, (Return (), with_files fs w).

(** ** The filesystem calls *)
Module Fs.

Definition existsSync (p : string) : M bool :=
  w ← get_world; mret (bool_decide (p ∈ files w)).

Definition unlinkSync (p : string) : M unit :=
  w ← get_world;
  if bool_decide (p ∈ files w) then
    if bool_decide (p ∈ undeletable w) then
      throw ("EPERM: operation not permitted, unlink '" ++ p ++ "'")
    else
      set_files (files w ∖ {[p]});; emit (FsUnlink p)
  else throw ("ENOENT: no such file or directory, unlink '" ++ p ++ "'").

(** The write stream multer's disk storage opens on the destination. *)
Definition writeFile (p : string) : M unit :=
  w ← get_world; set_files ({[p]} ∪ files w);; emit (FsWrite p).

End Fs.

(** ** The prepared statements (better-sqlite3 over SQLite) *)
Module Db.

(** A bound parameter: numbers, strings and null are accepted, anything
    else ([undefined], a boolean) makes [run]/[get] throw a TypeError.  A
    number is bound as a double; it is integral here, and an INTEGER column
    or a comparison with the rowid takes it as that integer. *)
Definition bindable (v : value) : option sqlval :=
  match v with
  | JNull => Some SNull
  | JNum n => Some (SInt n)
  | JStr s => Some (SText s)
  | JUndefined | JBool _ => None
  end.

Definition bind_error : string :=
  "SQLite3 can only bind numbers, strings, bigints, buffers, and null".

Definition bind (v : value) : M sqlval :=
  match bindable v with
  | Some x => mret x
  | None => throw bind_error
  end.

(** The rowid a value compared with the INTEGER PRIMARY KEY stands for. *)
Definition rowid_of (v : sqlval) : option Z :=
  match Sqlite.integer_affinity v with
  | SInt n => Some n
  | _ => None
  end.

(** [SELECT * FROM movies WHERE id = ?] with [.get(x)] *)
Definition get_by_id (x : value) : M (option Movie.t) :=
  v ← bind x;
  w ← get_world;
  mret (k ← rowid_of v; rows (db w) !! k).

(** [SELECT * FROM movies ORDER BY year DESC, title ASC] with [.all()].
    SQL leaves the order of rows with equal keys open; here they come out
    as the sort of the table scan leaves them. *)
Definition all_ordered : M (list Movie.t) :=
  w ← get_world;
  mret (merge_sort Movie.order_by (snd <$> map_to_list (rows (db w)))).

(** [SELECT COUNT( * ) as count FROM movies] *)
Definition count : M Z :=
  w ← get_world; mret (Z.of_nat (size (rows (db w)))).

Definition max_rowid (t : gmap Z Movie.t) : Z :=
  foldr Z.max 0 (fst <$> map_to_list t).

(** AUTOINCREMENT: one more than the largest rowid the table has ever
    held; SQLITE_FULL once the largest 64-bit integer has been used. *)
Definition next_rowid (d : database) : option Z :=
  let largest := Z.max (max_rowid (rows d)) (sqlite_sequence d) in
  if largest <? Sqlite.int64_max then Some (largest + 1) else None.

(** The row that is stored for eleven given column values: each value
    takes the affinity of its column, and [title TEXT NOT NULL] refuses a
    NULL title. *)
Definition stored_row (rowid : Z) (vs : list sqlval) (created updated : string)
    : outcome Movie.t :=
  match vs with
  | [title; year; poster_url; poster_local; dop; bobo_crew; imdb_url;
     tmdb_url; trailer_url; production_company; synopsis] =>
      match Sqlite.text_affinity title with
      | None => Throw "NOT NULL constraint failed: movies.title"
      | Some title =>
          Return {| Movie.id := rowid;
                    Movie.title := title;
                    Movie.year := Sqlite.integer_affinity year;
                    Movie.poster_url := Sqlite.text_affinity poster_url;
                    Movie.poster_local := Sqlite.text_affinity poster_local;
                    Movie.dop := Sqlite.text_affinity dop;
                    Movie.bobo_crew := Sqlite.text_affinity bobo_crew;
                    Movie.imdb_url := Sqlite.text_affinity imdb_url;
                    Movie.tmdb_url := Sqlite.text_affinity tmdb_url;
                    Movie.trailer_url := Sqlite.text_affinity trailer_url;
                    Movie.production_company := Sqlite.text_affinity production_company;
                    Movie.synopsis := Sqlite.text_affinity synopsis;
                    Movie.created_at := created;
                    Movie.updated_at := updated |}
      end
  | _ => Throw "Too few parameter values were provided"
  end.

(** [INSERT INTO movies (title, year, poster_url, poster_local, dop,
    bobo_crew, imdb_url, tmdb_url, trailer_url, production_company,
    synopsis) VALUES (?, ..., ?)] with [.run(...)]; the result is
    [lastInsertRowid].  Both timestamps take their default,
    CURRENT_TIMESTAMP. *)
Definition run_insert (e : env) (args : list value) : M Z :=
  vs ← mapM bind args;
  w ← get_world;
  let now := current_timestamp e in
  match next_rowid (db w) with
  | None => throw "database or disk is full"
  | Some rowid =>
      match stored_row rowid vs now now with
      | Throw message => throw message
      | Return m =>
          set_db {| rows := <[rowid := m]> (rows (db w)); sqlite_sequence := rowid |};;
          emit (DbInsert rowid);;
          mret rowid
      end
  end.

(** [UPDATE movies SET title = ?, ..., synopsis = ?, updated_at =
    CURRENT_TIMESTAMP WHERE id = ?] with [.run(..., id)]: [args] are the
    eleven column values. *)
Definition run_update (e : env) (args : list value) (id : value) : M unit :=
  vs ← mapM bind args;
  k ← bind id;
  w ← get_world;
  match rowid_of k ≫= λ rowid, pair rowid <$> rows (db w) !! rowid with
  | None => mret ()
  | Some (rowid, old) =>
      match stored_row rowid vs (Movie.created_at old) (current_timestamp e) with
      | Throw message => throw message
      | Return m =>
          set_db {| rows := <[rowid := m]> (rows (db w));
                    sqlite_sequence := sqlite_sequence (db w) |};;
          emit (DbUpdate rowid (Movie.poster_local m))
      end
  end.

(** [DELETE FROM movies WHERE id = ?] with [.run(id)] *)
Definition run_delete (id : value) : M unit :=
  k ← bind id;
  w ← get_world;
  match rowid_of k ≫= λ rowid, pair rowid <$> rows (db w) !! rowid with
  | None => mret ()
  | Some (rowid, _) =>
      set_db {| rows := delete rowid (rows (db w));
                sqlite_sequence := sqlite_sequence (db w) |};;
      emit (DbDelete rowid)
  end.

End Db.

(** ** Poster uploads (multer) *)
Module Multer.

(** The file part of a multipart request, as busboy hands it over:
    [originalname] is the base name the client sent. *)
Record file := {
  originalname : string;
  mimetype : string;
  size : Z
}.

(** [req.file] once the file has been stored. *)
Record stored := { filename : string }.

(** [path.extname] on a name without directory separators: the part from
    the last dot on, unless there is no dot, the only dot leads the name,
    or the name is [..]. *)
Fixpoint from_last_dot (s : string) : option string :=
  match s with
  | EmptyString => None
  | String c s' =>
      match from_last_dot s' with
      | Some ext => Some ext
      | None => if Ascii.eqb c "." then Some s else None
      end
  end.

Definition extname (name : string) : string :=
  match name with
  | EmptyString => ""
  | String _ rest =>
      if String.eqb name ".." then "" else default "" (from_last_dot rest)
  end.

(** [String.prototype.toLowerCase] on the letters A to Z; no other
    character lowers to one of the letters the filter looks for. *)
Definition lower (c : ascii) : ascii :=
  let n := N_of_ascii c in
  if ((65 <=? n) && (n <=? 90))%N then ascii_of_N (n + 32) else c.

Fixpoint toLowerCase (s : string) : string :=
  match s with
  | EmptyString => EmptyString
  | String c s' => String (lower c) (toLowerCase s')
  end.

(** [pattern] occurs somewhere in [s]. *)
Fixpoint occurs (pattern s : string) : bool :=
  String.prefix pattern s ||
  match s with
  | EmptyString => false
  | String _ s' => occurs pattern s'
  end.

(** [/jpeg|jpg|png|webp/.test(s)]: the expression is not anchored. *)
Definition allowedTypes_test (s : string) : bool :=
  occurs "jpeg" s || occurs "jpg" s || occurs "png" s || occurs "webp" s.

Definition fileFilter (f : file) : bool :=
  let extname := allowedTypes_test (toLowerCase (extname (originalname f))) in
  let mimetype := allowedTypes_test (mimetype f) in
  extname && mimetype.

(** [limits: { fileSize: 5 * 1024 * 1024 }] *)
Definition fileSize : Z := 5 * 1024 * 1024.

(** [filename]: [Date.now() + '-' + Math.round(Math.random() * 1E9)]
    followed by the extension of the original name. *)
Definition generated_name (e : env) (f : file) : string :=
  let uniqueSuffix := pretty (date_now e) ++ "-" ++ pretty (random_1e9 e) in
  uniqueSuffix ++ extname (originalname f).

(** [destination]: [uploadsDir], below [__dirname]. *)
Definition uploadsDir : string := "/uploads/posters".

Definition destination_path (name : string) : string :=
  uploadsDir ++ "/" ++ name.

(** [upload.single('poster')]: the filter runs first; an accepted file is
    streamed to its destination; a stream that passes the size limit aborts
    the upload, and what was written of it is unlinked (a failure of that
    unlink is only recorded with the error). *)
Definition single (e : env) (upload : option file) : M (option stored) :=
  match upload with
  | None => mret None
  | Some f =>
      if fileFilter f then
        let name := generated_name e f in
        Fs.writeFile (destination_path name);;
        if fileSize <? size f then
          try_catch (Fs.unlinkSync (destination_path name)) (λ _, mret ());;
          throw "File too large"
        else mret (Some {| filename := name |})
      else throw "Only image files are allowed"
  end.

End Multer.

(** ** Requests and responses *)
Module Body.

(** [req.body], destructured by the create and update handlers; a field
    that was not sent is [JUndefined]. *)
Record t := {
  title : value;
  year : value;
  poster_url : value;
  dop : value;
  bobo_crew : value;
  imdb_url : value;
  tmdb_url : value;
  trailer_url : value;
  production_company : value;
  synopsis : value
}.

Definition empty : t :=
  {| title := JUndefined; year := JUndefined; poster_url := JUndefined;
     dop := JUndefined; bobo_crew := JUndefined; imdb_url := JUndefined;
     tmdb_url := JUndefined; trailer_url := JUndefined;
     production_company := JUndefined; synopsis := JUndefined |}.

End Body.

Record request := {
  params_id : string;
  body : Body.t;
  poster : option Multer.file
}.

Inductive payload :=
| JsonMovies (l : list Movie.t)
| JsonMovie (m : Movie.t)
| JsonUndefined
| JsonError (error : string)
| JsonMessage (message : string)
| ErrorPage (message : string).

Record response := {
  status : Z;
  sent : payload
}.

Definition json (code : Z) (p : payload) : M response :=
  mret {| status := code; sent := p |}.

Definition json_row (code : Z) (o : option Movie.t) : M response :=
  json code (match o with Some m => JsonMovie m | None => JsonUndefined end).

(** The values [stmt.run] receives in the create and update handlers. *)
Definition column_values (b : Body.t) (poster_local : value) : list value :=
  [Body.title b; JS.or_null (Body.year b); JS.or_null (Body.poster_url b);
   poster_local; JS.or_null (Body.dop b); JS.or_null (Body.bobo_crew b);
   JS.or_null (Body.imdb_url b); JS.or_null (Body.tmdb_url b);
   JS.or_null (Body.trailer_url b); JS.or_null (Body.production_company b);
   JS.or_null (Body.synopsis b)].

(** [`/uploads/posters/${req.file.filename}`] *)
Definition poster_path (f : Multer.stored) : string :=
  "/uploads/posters/" ++ Multer.filename f.

(** ** The route handlers of server.js *)
Module Handler.

(** [app.get('/api/movies', ...)] *)
Definition get_movies : M response :=
  try_catch
    (movies ← Db.all_ordered;
     json 200 (JsonMovies movies))
    (λ message, json 500 (JsonError message)).

(** [app.get('/api/movies/:id', ...)] *)
Definition get_movie (req : request) : M response :=
  try_catch
    (movie ← Db.get_by_id (JStr (params_id req));
     match movie with
     | None => json 404 (JsonError "Movie not found")
     | Some m => json 200 (JsonMovie m)
     end)
    (λ message, json 500 (JsonError message)).

(** [app.post('/api/movies', upload.single('poster'), ...)], the handler *)
Definition post_movie (e : env) (req : request) (file : option Multer.stored)
    : M response :=
  try_catch
    (let poster_local :=
       match file with
       | Some f => JStr (poster_path f)
       | None => JNull
       end in
     lastInsertRowid ← Db.run_insert e (column_values (body req) poster_local);
     newMovie ← Db.get_by_id (JNum lastInsertRowid);
     json_row 201 newMovie)
    (λ message, json 500 (JsonError message)).

(** [existingMovie.poster_local] as a JavaScript value. *)
Definition js_of (local : option string) : value :=
  match local with
  | None => JNull
  | Some s => JStr s
  end.

(** [path.join(__dirname, local)], a path below [__dirname]; [local] is
    a string wherever the handlers call it. *)
Definition join_dirname (local : value) : string :=
  match local with
  | JStr s => s
  | _ => ""
  end.

(** [app.put('/api/movies/:id', upload.single('poster'), ...)], the handler *)
Definition put_movie (e : env) (req : request) (file : option Multer.stored)
    : M response :=
  try_catch
    (existingMovie ← Db.get_by_id (JStr (params_id req));
     match existingMovie with
     | None => json 404 (JsonError "Movie not found")
     | Some existingMovie =>
         let existing := js_of (Movie.poster_local existingMovie) in
         poster_local ←
           match file with
           | Some f =>
               when (JS.truthy existing)
                 (let oldPath := join_dirname existing in
                  present ← Fs.existsSync oldPath;
                  when present (Fs.unlinkSync oldPath));;
               mret (JStr (poster_path f))
           | None => mret existing
           end;
         Db.run_update e (column_values (body req) poster_local)
                       (JStr (params_id req));;
         updatedMovie ← Db.get_by_id (JStr (params_id req));
         json_row 200 updatedMovie
     end)
    (λ message, json 500 (JsonError message)).

(** [app.delete('/api/movies/:id', ...)] *)
Definition delete_movie (req : request) : M response :=
  try_catch
    (movie ← Db.get_by_id (JStr (params_id req));
     match movie with
     | None => json 404 (JsonError "Movie not found")
     | Some movie =>
         let local := js_of (Movie.poster_local movie) in
         when (JS.truthy local)
           (let posterPath := join_dirname local in
            present ← Fs.existsSync posterPath;
            when present (Fs.unlinkSync posterPath));;
         Db.run_delete (JStr (params_id req));;
         json 200 (JsonMessage "Movie deleted successfully")
     end)
    (λ message, json 500 (JsonError message)).

End Handler.

(** ** The application: routes, start-up and seed data *)
Module App.

(** A route with [upload.single('poster')] in front of its handler.  The
    file has no error-handling middleware, so an error of the upload goes
    to the default handler of Express: status 500 and an error page. *)
Definition with_upload (e : env) (req : request)
    (handler : option Multer.stored → M response) : M response :=
  try_catch
    (file ← Multer.single e (poster req); handler file)
    (λ message, mret {| status := 500; sent := ErrorPage message |}).

Definition create (e : env) (req : request) : M response :=
  with_upload e req (Handler.post_movie e req).

Definition update (e : env) (req : request) : M response :=
  with_upload e req (Handler.put_movie e req).

(** The rows of [seedMovies]: title, year, poster_url, dop, bobo_crew,
    trailer_url, production_company. *)
Definition seedMovies : list (string * Z * string * string * string * string * string) :=
  [("Tuntematon Sotilas", 2017,
    "https://image.tmdb.org/t/p/w500/vOipe2myi26UNfY1ufV8Ywlwqbe.jpg",
    "Mika Orasmaa", "Matti Kuusniemi (DIT)",
    "https://www.youtube.com/watch?v=4dAaLbsQSzI", "Elokuvaosakeyhtiö Suomi 2017");
   ("Hevi Reissu", 2018,
    "https://image.tmdb.org/t/p/w500/xJnbMTrJ2fl1AXAKx34qu8yMDnv.jpg",
    "Tuomo Hutri", "Matti Kuusniemi (DIT)",
    "https://www.youtube.com/watch?v=VZjGnwMPGXg", "Making Movies");
   ("Laugh or Die", 2018,
    "https://image.tmdb.org/t/p/w500/7KdmKMcMwrMXvPXoK0N7mM9sNNw.jpg",
    "Rauno Ronkainen", "Matti Kuusniemi (DIT)",
    "https://www.youtube.com/watch?v=4b7gF04CpHQ", "Helsinki-filmi");
   ("Oma maa", 2018,
    "https://image.tmdb.org/t/p/w500/7RaFtzxtaiO21vyVkGfxlbPVPV0.jpg",
    "Rauno Ronkainen", "Matti Kuusniemi (DIT)",
    "https://www.youtube.com/watch?v=G_2T6l_Rnx0", "Elokuvaosakeyhtiö Aamu");
   ("Veljeni Vartija", 2018,
    "https://image.tmdb.org/t/p/w500/bQS43HSLZzMjZkcHJz4fGc7fNdz.jpg",
    "Tuomo Hutri", "Matti Kuusniemi (DIT)",
    "https://www.youtube.com/watch?v=cMTAUr3Nm6I", "Solar Films");
   ("Tuntematon mestari", 2018,
    "https://image.tmdb.org/t/p/w500/8PWFBT8K8YnFtyqaAM3GbdzYoMV.jpg",
    "Peter Flinckenberg", "Matti Kuusniemi (DIT)",
    "https://www.youtube.com/watch?v=_jBLyJQHR3Q", "Inland Film Company");
   ("Ihmisen osa", 2018,
    "https://image.tmdb.org/t/p/w500/iLmYX6gK3rXhNl8TWYjrCxsUKlx.jpg",
    "Pietari Peltola", "Matti Kuusniemi (DIT)",
    "https://www.youtube.com/watch?v=eFynkQl9Gek", "Bufo");
   ("Joulumaa", 2017,
    "https://image.tmdb.org/t/p/w500/ueAXbqFzSmqqJ1l4PxRkiKxLNVH.jpg",
    "Hannu-Pekka Vitikainen", "Matti Kuusniemi (DIT)",
    "https://www.youtube.com/watch?v=E3A3Q1PC7Ok", "Solar Films")].

(** [insertStmt.run(...)] of the seed: the four columns it does not name
    take their default, NULL. *)
Definition insert_seed (e : env)
    (movie : string * Z * string * string * string * string * string) : M Z :=
  let '(title, year, poster_url, dop, bobo_crew, trailer_url, production_company) := movie in
  Db.run_insert e
    [JStr title; JNum year; JStr poster_url; JNull; JStr dop; JStr bobo_crew;
     JNull; JNull; JStr trailer_url; JStr production_company; JNull].

(** The top level of server.js that touches the table: seed it when it is
    empty.  An exception here ends the process. *)
Definition startup (e : env) : M unit :=
  movieCount ← Db.count;
  when (bool_decide (movieCount = 0))
    (mapM (insert_seed e) seedMovies;; mret ()).

(** What can happen to a running installation. *)
Inductive call :=
| ListMovies
| GetMovie (req : request)
| CreateMovie (req : request)
| UpdateMovie (req : request)
| DeleteMovie (req : request)
| Restart.

Definition serve (e : env) (c : call) : M (option response) :=
  match c with
  | ListMovies => Some <$> Handler.get_movies
  | GetMovie req => Some <$> Handler.get_movie req
  | CreateMovie req => Some <$> create e req
  | UpdateMovie req => Some <$> update e req
  | DeleteMovie req => Some <$> Handler.delete_movie req
  | Restart => startup e;; mret None
  end.

(** A new installation: no database file yet, nothing recorded. *)
Definition installed (fs locked : gset string) : world :=
  {| db := {| rows := ∅; sqlite_sequence := 0 |};
     files := fs; undeletable := locked; log := [] |}.

Inductive reachable : world → Prop :=
| reachable_installed fs locked : reachable (installed fs locked)
| reachable_serve w e c : reachable w → reachable (serve e c w).2.

End App.

(** The rowids the table has given out, oldest first. *)
Definition assigned_ids (l : list event) : list Z :=
  omap (λ ev, match ev with DbInsert k => Some k | _ => None end) l.

(** ** The trailer modal of main.js *)
Module Client.

(** The literal text [p] at the start of [s]: what follows it. *)
Fixpoint strip_prefix (p s : string) : option string :=
  match p, s with
  | EmptyString, _ => Some s
  | String a p', String b s' => if Ascii.eqb a b then strip_prefix p' s' else None
  | String _ _, EmptyString => None
  end.

(** [[^&]+]: the longest run of characters other than [&], at least one. *)
Fixpoint until_amp (s : string) : string :=
  match s with
  | EmptyString => EmptyString
  | String c s' => if Ascii.eqb c "&" then EmptyString else String c (until_amp s')
  end.

Definition group1 (s : string) : option string :=
  match until_amp s with
  | EmptyString => None
  | g => Some g
  end.

(** [(?:youtube\.com\/watch\?v=|youtu\.be\/)([^&]+)] matched where [s]
    starts: the first alternative, then the second. *)
Definition match_at (s : string) : option string :=
  match strip_prefix "youtube.com/watch?v=" s ≫= group1 with
  | Some g => Some g
  | None => strip_prefix "youtu.be/" s ≫= group1
  end.

(** [url.match(...)]: the leftmost position where the expression matches;
    the result is the captured group, [videoId[1]]. *)
Fixpoint match_ (url : string) : option string :=
  match match_at url with
  | Some g => Some g
  | None =>
      match url with
      | EmptyString => None
      | String _ rest => match_ rest
      end
  end.

Definition getEmbedUrl (url : string) : string :=
  match match_ url with
  | Some videoId1 =>
      if negb (String.eqb videoId1 "")
      then "https://www.youtube.com/embed/" ++ videoId1 ++ "?autoplay=1&rel=0"
      else url
  | None => url
  end.

End Client.

(** ** The page of main.js: mobile menu, trailer modal, overlay panels, theme

    The document is taken as the script expects it: the elements it looks
    up by id or by class are there, and an element that carries the
    attribute [data-overlay-panel] is of class [overlay-panel]. *)
Module Page.

(** An element of class [overlay-panel]: its [data-overlay-panel], its
    class [active], and the class [scrolled] of its [.overlay-logo-close]
    button when it has one. *)
Record panel := {
  overlayPanel : option string;
  active : bool;
  logo_scrolled : option bool
}.

(** What the handlers read and write: classes and styles of [document.body]
    and of the header, the mobile menu, the trailer modal, the panels in
    document order, the text of the theme button, and [localStorage.theme]. *)
Record t := {
  light_mode : bool;
  overflow : string;
  header_background : string;
  menu_toggle_active : bool;
  nav_links_active : bool;
  modal_active : bool;
  iframe_src : string;
  panels : list panel;
  theme_toggle_text : string;
  localStorage_theme : option string
}.

Definition with_light_mode (v : bool) (s : t) : t :=
  {| light_mode := v; overflow := overflow s; header_background := header_background s;
     menu_toggle_active := menu_toggle_active s; nav_links_active := nav_links_active s;
     modal_active := modal_active s; iframe_src := iframe_src s; panels := panels s;
     theme_toggle_text := theme_toggle_text s; localStorage_theme := localStorage_theme s |}.

Definition with_overflow (v : string) (s : t) : t :=
  {| light_mode := light_mode s; overflow := v; header_background := header_background s;
     menu_toggle_active := menu_toggle_active s; nav_links_active := nav_links_active s;
     modal_active := modal_active s; iframe_src := iframe_src s; panels := panels s;
     theme_toggle_text := theme_toggle_text s; localStorage_theme := localStorage_theme s |}.

Definition with_header_background (v : string) (s : t) : t :=
  {| light_mode := light_mode s; overflow := overflow s; header_background := v;
     menu_toggle_active := menu_toggle_active s; nav_links_active := nav_links_active s;
     modal_active := modal_active s; iframe_src := iframe_src s; panels := panels s;
     theme_toggle_text := theme_toggle_text s; localStorage_theme := localStorage_theme s |}.

Definition with_menu (toggle nav : bool) (s : t) : t :=
  {| light_mode := light_mode s; overflow := overflow s;
     header_background := header_background s;
     menu_toggle_active := toggle; nav_links_active := nav;
     modal_active := modal_active s; iframe_src := iframe_src s; panels := panels s;
     theme_toggle_text := theme_toggle_text s; localStorage_theme := localStorage_theme s |}.

Definition with_modal (active : bool) (src : string) (s : t) : t :=
  {| light_mode := light_mode s; overflow := overflow s;
     header_background := header_background s;
     menu_toggle_active := menu_toggle_active s; nav_links_active := nav_links_active s;
     modal_active := active; iframe_src := src; panels := panels s;
     theme_toggle_text := theme_toggle_text s; localStorage_theme := localStorage_theme s |}.

Definition with_panels (v : list panel) (s : t) : t :=
  {| light_mode := light_mode s; overflow := overflow s;
     header_background := header_background s;
     menu_toggle_active := menu_toggle_active s; nav_links_active := nav_links_active s;
     modal_active := modal_active s; iframe_src := iframe_src s; panels := v;
     theme_toggle_text := theme_toggle_text s; localStorage_theme := localStorage_theme s |}.

Definition with_theme_toggle_text (v : string) (s : t) : t :=
  {| light_mode := light_mode s; overflow := overflow s;
     header_background := header_background s;
     menu_toggle_active := menu_toggle_active s; nav_links_active := nav_links_active s;
     modal_active := modal_active s; iframe_src := iframe_src s; panels := panels s;
     theme_toggle_text := v; localStorage_theme := localStorage_theme s |}.

Definition with_localStorage_theme (v : option string) (s : t) : t :=
  {| light_mode := light_mode s; overflow := overflow s;
     header_background := header_background s;
     menu_toggle_active := menu_toggle_active s; nav_links_active := nav_links_active s;
     modal_active := modal_active s; iframe_src := iframe_src s; panels := panels s;
     theme_toggle_text := theme_toggle_text s; localStorage_theme := v |}.

(** *** Mobile menu *)

(** The click on [#mobile-menu-toggle]. *)
Definition mobileMenuToggle_click (s : t) : t :=
  let toggle := negb (menu_toggle_active s) in
  let nav := negb (nav_links_active s) in
  with_overflow (if nav then "hidden" else "") (with_menu toggle nav s).

(** The click on a link of [#nav-links]. *)
Definition navLink_click (s : t) : t :=
  with_overflow "" (with_menu false false s).

(** *** Trailer modal *)

(** The click on the poster of a card; [trailer] is [card.dataset.trailer]. *)
Definition poster_click (trailer : option string) (s : t) : t :=
  match trailer with
  | Some trailerUrl =>
      if negb (String.eqb trailerUrl "")
      then with_overflow "hidden" (with_modal true (Client.getEmbedUrl trailerUrl) s)
      else s
  | None => s
  end.

Definition closeModal (s : t) : t :=
  with_overflow "" (with_modal false "" s).

(** The click inside the modal: only the backdrop itself closes it. *)
Definition modal_click (target_is_modal : bool) (s : t) : t :=
  if target_is_modal then closeModal s else s.

(** *** Overlay panels *)

Definition overlayColorsDark : gmap string string :=
  {[ "services" := "rgb(180, 100, 60)"; "work" := "rgb(26, 31, 28)";
     "team" := "rgb(180, 100, 60)"; "contact" := "rgb(26, 31, 28)" ]}.

Definition overlayColorsLight : gmap string string :=
  {[ "services" := "#f7f4ef"; "work" := "#f7f4ef";
     "team" := "#f7f4ef"; "contact" := "#f7f4ef" ]}.

Definition getOverlayColors (s : t) : gmap string string :=
  if light_mode s then overlayColorsLight else overlayColorsDark.

Definition defaultHeaderColor : string := "var(--bg-primary)".

(** [document.querySelector(`[data-overlay-panel="${panelId}"]`)]: the
    first element whose attribute is [panelId].  This is what the selector
    means when [panelId] can stand between the quotes as it is, see
    [quotable]. *)
Definition querySelector_panel (panelId : string) (ps : list panel) : option (nat * panel) :=
  list_find (λ p, overlayPanel p = Some panelId) ps.

(** A name that is not one of the four keys gives no colour to set: the
    lookup is undefined, or a member of [Object.prototype], which is no
    colour, and the header keeps its background. *)
Definition openOverlay (panelId : string) (s : t) : t :=
  match querySelector_panel panelId (panels s) with
  | Some (i, panel) =>
      let opened :=
        {| overlayPanel := overlayPanel panel; active := true;
           logo_scrolled := (λ _, false) <$> logo_scrolled panel |} in
      let s1 := with_overflow "hidden" (with_panels (<[i := opened]> (panels s)) s) in
      match getOverlayColors s !! panelId with
      | Some colour => with_header_background colour s1
      | None => s1
      end
  | None => s
  end.

Definition closed (p : panel) : panel :=
  {| overlayPanel := overlayPanel p; active := false;
     logo_scrolled := (λ _, false) <$> logo_scrolled p |}.

Definition closeAllOverlays (s : t) : t :=
  with_header_background defaultHeaderColor
    (with_overflow "" (with_panels (closed <$> panels s) s)).

(** The click on an element with [data-overlay]; [panelId] is its value. *)
Definition trigger_click (panelId : string) (s : t) : t :=
  openOverlay panelId (closeAllOverlays s).

(** The two listeners for [keydown] on the document, the modal's first. *)
Definition keydown (key : string) (s : t) : t :=
  let s1 := if String.eqb key "Escape" && modal_active s then closeModal s else s in
  if String.eqb key "Escape" then closeAllOverlays s1 else s1.

(** The scroll of the [.overlay-scroll] of the panel at position [i], at
    [scrollTop] pixels. *)
Definition panel_scroll (i : nat) (scrollTop : Z) (s : t) : t :=
  match panels s !! i with
  | Some p =>
      match logo_scrolled p with
      | Some _ =>
          with_panels
            (<[i := {| overlayPanel := overlayPanel p; active := active p;
                       logo_scrolled := Some (50 <? scrollTop) |}]> (panels s)) s
      | None => s
      end
  | None => s
  end.

(** *** Theme *)

(** On load: the saved preference. *)
Definition theme_load (s : t) : t :=
  if decide (localStorage_theme s = Some "light")
  then with_theme_toggle_text "Color" (with_light_mode true s)
  else s.

(** The click on [#theme-toggle]; [document.querySelector('.overlay-panel.active')]
    is the first active panel. *)
Definition themeToggle_click (s : t) : t :=
  let isLightMode := negb (light_mode s) in
  let s1 :=
    with_localStorage_theme (Some (if isLightMode then "light" else "dark"))
      (with_theme_toggle_text (if isLightMode then "Color" else "B&W")
         (with_light_mode isLightMode s)) in
  match list_find (λ p, active p = true) (panels s) with
  | Some (_, activeOverlay) =>
      let panelId := overlayPanel activeOverlay in
      with_header_background
        (if isLightMode then "#f7f4ef"
         else if decide (panelId = Some "services" ∨ panelId = Some "team")
              then "rgb(180, 100, 60)"
              else "rgb(26, 31, 28)") s1
  | None => s1
  end.

(** *** The handlers together *)
Inductive event :=
| MenuToggleClick
| NavLinkClick
| PosterClick (trailer : option string)
| CloseButtonClick
| ModalClick (target_is_modal : bool)
| Keydown (key : string)
| TriggerClick (panelId : string)
| LogoCloseClick
| LogoLinkClick
| PanelScroll (i : nat) (scrollTop : Z)
| ThemeToggleClick.

Definition handle (ev : event) (s : t) : t :=
  match ev with
  | MenuToggleClick => mobileMenuToggle_click s
  | NavLinkClick => navLink_click s
  | PosterClick trailer => poster_click trailer s
  | CloseButtonClick => closeModal s
  | ModalClick target_is_modal => modal_click target_is_modal s
  | Keydown key => keydown key s
  | TriggerClick panelId => trigger_click panelId s
  | LogoCloseClick => closeAllOverlays s
  | LogoLinkClick => closeAllOverlays s
  | PanelScroll i scrollTop => panel_scroll i scrollTop s
  | ThemeToggleClick => themeToggle_click s
  end.

Fixpoint run (evs : list event) (s : t) : t :=
  match evs with
  | [] => s
  | ev :: evs => run evs (handle ev s)
  end.

(** The page is loaded again: the document is as it is served, the local
    storage is as it was left. *)
Definition reload (served : t) (s : t) : t :=
  theme_load (with_localStorage_theme (localStorage_theme s) served).

(** A panel name that stands between the quotes of the selector as it
    is: no quote, backslash, line break or NUL in it. *)
Fixpoint quotable (panelId : string) : bool :=
  match panelId with
  | EmptyString => true
  | String c rest =>
      negb (bool_decide (N_of_ascii c ∈ [0; 10; 12; 13; 34; 92]%N)) && quotable rest
  end.

Definition in_model (ev : event) : Prop :=
  match ev with
  | TriggerClick panelId => quotable panelId = true
  | _ => True
  end.

End Page.

(** ** The slideshows of main.js *)
Module Slideshow.

(** An image of the slideshow: its class [active], [dataset.title] and
    [dataset.year]. *)
Record image := {
  active : bool;
  title : option string;
  year : option string
}.

(** [currentIndex], the images, and the text of the title and year
    elements of the overlay, for those that are there.  The overlay
    slideshow is the one without these two elements. *)
Record t := {
  currentIndex : nat;
  images : list image;
  titleEl : option string;
  yearEl : option string
}.

Definition deactivated (img : image) : image :=
  {| active := false; title := title img; year := year img |}.

(** [if (el && data) el.textContent = data]: an absent or empty
    [data-] attribute leaves the text. *)
Definition caption (el data : option string) : option string :=
  match el, data with
  | Some _, Some text => if negb (String.eqb text "") then Some text else el
  | _, _ => el
  end.

(** [showImage(index)]; an index past the last image is a TypeError. *)
Definition showImage (index : nat) (s : t) : option t :=
  let imgs := deactivated <$> images s in
  match imgs !! index with
  | Some currentImg =>
      Some {| currentIndex := currentIndex s;
              images := <[index := {| active := true; title := title currentImg;
                                      year := year currentImg |}]> imgs;
              titleEl := caption (titleEl s) (title currentImg);
              yearEl := caption (yearEl s) (year currentImg) |}
  | None => None
  end.

Definition nextImage (s : t) : option t :=
  let index := ((currentIndex s + 1) mod length (images s))%nat in
  showImage index
    {| currentIndex := index; images := images s;
       titleEl := titleEl s; yearEl := yearEl s |}.

(** The handler of [DOMContentLoaded] on a document with the images
    [imgs]; [random] is [Math.floor(Math.random() * imgs.length)].  Without
    images the handler returns and there is no slideshow. *)
Definition start (random : nat) (imgs : list image) (titleEl yearEl : option string)
    : option t :=
  if bool_decide (length imgs = 0%nat) then None
  else showImage random
         {| currentIndex := random; images := imgs; titleEl := titleEl; yearEl := yearEl |}.

(** The interval has fired [k] times. *)
Fixpoint ticks (k : nat) (s : t) : option t :=
  match k with
  | O => Some s
  | S k => nextImage s ≫= ticks k
  end.

End Slideshow.

(** ** Notions used in the statements *)

(** A request that failed: status 500, a message, the table as it was. *)
Definition failed (w w' : world) (resp : response) : Prop :=
  status resp = 500 ∧ db w' = db w ∧
  ∃ message, sent resp = JsonError message ∨ sent resp = ErrorPage message.

(** [req.file] as the value the handlers store in [poster_local]. *)
Definition local_of (file : option Multer.stored) : value :=
  match file with
  | Some f => JStr (poster_path f)
  | None => JNull
  end.

(** The world once the file [p] has been unlinked. *)
Definition unlinked (p : string) (w : world) : world :=
  logged (FsUnlink p) (with_files (files w ∖ {[p]}) w).

(** The world after the update handler has taken the old poster away:
    only an update that carries a new file unlinks, and only a file that is
    there. *)
Definition old_poster_removed (file : option Multer.stored) (old : Movie.t)
    (w : world) : world :=
  let existing := Handler.js_of (Movie.poster_local old) in
  let oldPath := Handler.join_dirname existing in
  match file with
  | Some _ =>
      if JS.truthy existing && bool_decide (oldPath ∈ files w)
      then unlinked oldPath w else w
  | None => w
  end.

(** The value the update handler stores in [poster_local]. *)
Definition local_kept (file : option Multer.stored) (old : Movie.t) : value :=
  match file with
  | Some f => JStr (poster_path f)
  | None => Handler.js_of (Movie.poster_local old)
  end.

(** Two worlds with the same table and the same rowids in their history
    (what writing and unlinking files leaves alone). *)
Definition same_ids (w w' : world) : Prop :=
  db w' = db w ∧ assigned_ids (log w') = assigned_ids (log w) ∧
  ∀ k, DbDelete k ∈ log w' ↔ DbDelete k ∈ log w.

(** What the history says about rowids: every rowid given out is at most
    the AUTOINCREMENT counter, none was given out twice, and the rows that
    are or were in the table got their rowid from the table. *)
Record ids_accounted (w : world) : Prop := {
  assigned_le_sequence : ∀ k, k ∈ assigned_ids (log w) → k ≤ sqlite_sequence (db w);
  assigned_once : NoDup (assigned_ids (log w));
  deleted_assigned : ∀ k, DbDelete k ∈ log w → k ∈ assigned_ids (log w);
  stored_assigned : ∀ k, is_Some (rows (db w) !! k) → k ∈ assigned_ids (log w)
}.

(** A computation keeps a property of the world, however it ends. *)
Definition preserves {A} (P : world → Prop) (m : M A) : Prop :=
  ∀ w o w', P w → m w = (o, w') → P w'.

(** The two URL shapes of the specification.  [url] carries the video
    identifier [id]: somewhere in it, [youtube.com/watch?v=] or [youtu.be/]
    is followed by [id], which is not empty, has no [&] in it and runs up to
    the next [&] or to the end of the URL. *)
Definition no_amp (s : string) : Prop := ∀ a b, s ≠ a ++ String "&" b.

Definition ends_id (rest : string) : Prop := rest = "" ∨ ∃ r, rest = String "&" r.

Definition marker (m : string) : Prop := m = "youtube.com/watch?v=" ∨ m = "youtu.be/".

Definition has_video_id (url id : string) : Prop :=
  ∃ before m rest,
    marker m ∧ url = before ++ m ++ id ++ rest ∧ id ≠ "" ∧ no_amp id ∧ ends_id rest.

(** The expression matched at the start of [s]. *)
Definition video_at (s id : string) : Prop :=
  ∃ m rest, marker m ∧ s = m ++ id ++ rest ∧ id ≠ "" ∧ no_amp id ∧ ends_id rest.

Definition embed_url (id : string) : string :=
  "https://www.youtube.com/embed/" ++ id ++ "?autoplay=1&rel=0".

(** The extensions the specification allows. *)
Definition allowed_extensions : list string := [".jpg"; ".jpeg"; ".png"; ".webp"].

(** The media types browsers send for the images of the allow list. *)
Definition image_types : list string := ["image/jpeg"; "image/png"; "image/webp"].

(** What a column holds for a bound value [v]. *)
Definition stored_text (v : value) (x : option string) : Prop :=
  ∃ y, Db.bindable v = Some y ∧ x = Sqlite.text_affinity y.

Definition stored_integer (v : value) (x : sqlval) : Prop :=
  ∃ y, Db.bindable v = Some y ∧ x = Sqlite.integer_affinity y.






(** An orderly history: every file written is a poster below the uploads
    directory, and a file is only unlinked after it was written. *)
Definition event_ok (before : list event) (ev : event) : Prop :=
  match ev with
  | FsWrite p => ∃ name, p = "/uploads/posters/" ++ name
  | FsUnlink p => FsWrite p ∈ before
  | _ => True
  end.

Inductive orderly : list event → Prop :=
| orderly_nil : orderly []
| orderly_snoc l ev : orderly l → event_ok l ev → orderly (l ++ [ev]).

(** A well-kept installation: every row sits under its own id, which is
    positive; a local poster named by a row was written by the server; the
    history is orderly. *)
Record kept_well (w : world) : Prop := {
  rows_keyed : ∀ k m, rows (db w) !! k = Some m → Movie.id m = k ∧ 1 ≤ k;
  posters_written : ∀ k m p,
    rows (db w) !! k = Some m → Movie.poster_local m = Some p → FsWrite p ∈ log w;
  log_orderly : orderly (log w)
}.

(** What the handlers of the page keep.  Something is open: the mobile
    menu, the trailer modal or a panel. *)
Definition something_open (s : Page.t) : Prop :=
  Page.nav_links_active s = true ∨ Page.modal_active s = true ∨
  ∃ p, p ∈ Page.panels s ∧ Page.active p = true.

(** The page scrolls, or it is locked and something is open. *)
Definition lock_explained (s : Page.t) : Prop :=
  Page.overflow s = "" ∨ (Page.overflow s = "hidden" ∧ something_open s).

(** The iframe has a source exactly while the modal is open. *)
Definition modal_playing (s : Page.t) : Prop :=
  Page.modal_active s = true ↔ Page.iframe_src s ≠ "".

Definition no_panel_open (s : Page.t) : Prop :=
  ∀ p, p ∈ Page.panels s → Page.active p = false.

Definition one_panel (s : Page.t) : Prop :=
  ∀ i j p q,
    Page.panels s !! i = Some p → Page.panels s !! j = Some q →
    Page.active p = true → Page.active q = true → i = j.

(** The four panels the colour tables know. *)
Definition known_panels : list string := ["services"; "work"; "team"; "contact"].

(** The header has the colour that the table of the current theme gives
    for the open panel. *)
Definition header_matches (s : Page.t) : Prop :=
  ∀ p panelId,
    p ∈ Page.panels s → Page.active p = true →
    Page.overlayPanel p = Some panelId → panelId ∈ known_panels →
    Page.getOverlayColors s !! panelId = Some (Page.header_background s).

(** The saved preference says [light] exactly when the page is in light
    mode. *)
Definition theme_saved (s : Page.t) : Prop :=
  Page.localStorage_theme s = Some "light" ↔ Page.light_mode s = true.

(** A slideshow that shows the image at [index] and no other. *)
Definition shows (s : Slideshow.t) (index : nat) : Prop :=
  Slideshow.currentIndex s = index ∧
  ∀ j img, Slideshow.images s !! j = Some img →
           Slideshow.active img = bool_decide (j = index).

(** An image with a title to show. *)
Definition titled_image (img : Slideshow.image) : Prop :=
  ∃ text, Slideshow.title img = Some text ∧ text ≠ "".

(** ** A sample installation

    The requests and worlds the examples below are run on. *)
Module Sample.

Definition clock : env :=
  {| date_now := 1700000000000; random_1e9 := 123456789;
     current_timestamp := "2024-01-01 00:00:00" |}.

Definition later : env :=
  {| date_now := 1700000360000; random_1e9 := 987654321;
     current_timestamp := "2024-01-01 00:06:00" |}.

Definition png : Multer.file :=
  {| Multer.originalname := "poster.png"; Multer.mimetype := "image/png";
     Multer.size := 204800 |}.

Definition titled (t : string) : Body.t :=
  {| Body.title := JStr t; Body.year := JUndefined; Body.poster_url := JUndefined;
     Body.dop := JUndefined; Body.bobo_crew := JUndefined;
     Body.imdb_url := JUndefined; Body.tmdb_url := JUndefined;
     Body.trailer_url := JUndefined; Body.production_company := JUndefined;
     Body.synopsis := JUndefined |}.

(** A name whose extension is not on the allow-list, sent as a PNG. *)
Definition pngx : Multer.file :=
  {| Multer.originalname := "poster.pngx"; Multer.mimetype := "image/png";
     Multer.size := 204800 |}.

(** Six megabytes. *)
Definition big : Multer.file :=
  {| Multer.originalname := "poster.png"; Multer.mimetype := "image/png";
     Multer.size := 6 * 1024 * 1024 |}.

(** A multipart request with a title and, possibly, a poster. *)
Definition form (id title : string) (file : option Multer.file) : request :=
  {| params_id := id; body := titled title; poster := file |}.

(** Where multer puts [png] at [clock]. *)
Definition stored_png : string := "/uploads/posters/1700000000000-123456789.png".

(** A new installation on which one movie with a poster was created; the
    files of [locked] cannot be unlinked. *)
Definition one_movie (locked : gset string) : world :=
  (App.serve clock (App.CreateMovie (form "" "Test Film" (Some png)))
             (App.installed ∅ locked)).2.

(** The movie is deleted again. *)
Definition emptied : world :=
  (App.serve later (App.DeleteMovie (form "1" "" None)) (one_movie ∅)).2.

(** A page with the four panels, as it is served. *)
Definition panel_of (name : string) : Page.panel :=
  {| Page.overlayPanel := Some name; Page.active := false;
     Page.logo_scrolled := Some false |}.

Definition page : Page.t :=
  {| Page.light_mode := false; Page.overflow := "";
     Page.header_background := "var(--bg-primary)";
     Page.menu_toggle_active := false; Page.nav_links_active := false;
     Page.modal_active := false; Page.iframe_src := "";
     Page.panels := panel_of <$> ["services"; "work"; "team"; "contact"];
     Page.theme_toggle_text := "B&W"; Page.localStorage_theme := None |}.

(** Three images of the work slideshow. *)
Definition still (name year : string) : Slideshow.image :=
  {| Slideshow.active := false; Slideshow.title := Some name;
     Slideshow.year := Some year |}.

Definition stills : list Slideshow.image :=
  [still "Hevi Reissu" "2018"; still "Oma maa" "2018"; still "Joulumaa" "2017"].

End Sample.

(** * Properties *)

(** ** The order of SQLite values *)
Section sqlite_order.

Lemma string_compare_refl (s : string) : String.compare s s = Eq.
Proof.
  induction s as [|c s IH]; simpl; [done|].
  unfold Ascii.compare. by rewrite N.compare_refl.
Qed.

Lemma string_compare_lt_le (s t : string) : String.compare s t = Lt → String.le s t.
Proof. unfold String.le, String.leb. by intros ->. Qed.

Lemma string_compare_lt_trans (s t u : string) :
  String.compare s t = Lt → String.compare t u = Lt → String.compare s u = Lt.
Proof.
  intros Hst Htu.
  assert (String.le s u) as Hsu.
  { trans t; by apply string_compare_lt_le. }
  unfold String.le, String.leb in Hsu.
  destruct (String.compare s u) eqn:E; [|done..].
  apply String.compare_eq_iff in E as ->.
  rewrite String.compare_antisym, Hst in Htu. done.
Qed.

Lemma compare_refl (a : sqlval) : Sqlite.compare a a = Eq.
Proof.
  destruct a; simpl; [done|apply Z.compare_refl|apply string_compare_refl].
Qed.

Lemma compare_eq (a b : sqlval) : Sqlite.compare a b = Eq ↔ a = b.
Proof.
  split; [|intros ->; apply compare_refl].
  destruct a, b; simpl; try done.
  - by intros ->%Z.compare_eq.
  - by intros ->%String.compare_eq_iff.
Qed.

Lemma compare_antisym (a b : sqlval) :
  Sqlite.compare b a = CompOpp (Sqlite.compare a b).
Proof.
  destruct a, b; simpl; try done.
  - apply Z.compare_antisym.
  - apply String.compare_antisym.
Qed.

Lemma compare_lt_trans (a b c : sqlval) :
  Sqlite.compare a b = Lt → Sqlite.compare b c = Lt → Sqlite.compare a c = Lt.
Proof.
  destruct a, b, c; simpl; try done.
  - rewrite !Z.compare_lt_iff. lia.
  - apply string_compare_lt_trans.
Qed.

Lemma compare_gt_lt (a b : sqlval) :
  Sqlite.compare a b = Gt ↔ Sqlite.compare b a = Lt.
Proof.
  rewrite (compare_antisym a b). destruct (Sqlite.compare a b); simpl; split; done.
Qed.

Lemma compare_gt_trans (a b c : sqlval) :
  Sqlite.compare a b = Gt → Sqlite.compare b c = Gt → Sqlite.compare a c = Gt.
Proof.
  rewrite !compare_gt_lt. eauto using compare_lt_trans.
Qed.

(** A missing year is below every year that is present. *)
Lemma null_lowest (v : sqlval) : v ≠ SNull → Sqlite.lt SNull v.
Proof. by destruct v. Qed.

Lemma lt_int (x y : Z) : Sqlite.lt (SInt x) (SInt y) ↔ x < y.
Proof. unfold Sqlite.lt; simpl. apply Z.compare_lt_iff. Qed.

#[global] Instance order_by_trans : Transitive Movie.order_by.
Proof.
  intros a b c. unfold Movie.order_by.
  destruct (Sqlite.compare (Movie.year a) (Movie.year b)) eqn:Eab; [| done |].
  - apply compare_eq in Eab. rewrite Eab.
    destruct (Sqlite.compare (Movie.year b) (Movie.year c)); [|done..].
    intros ??. by etrans.
  - intros _.
    destruct (Sqlite.compare (Movie.year b) (Movie.year c)) eqn:Ebc; [| done |].
    + apply compare_eq in Ebc. rewrite <- Ebc, Eab. done.
    + by rewrite (compare_gt_trans _ _ _ Eab Ebc).
Qed.

#[global] Instance order_by_total : Total Movie.order_by.
Proof.
  intros a b. unfold Movie.order_by.
  rewrite (compare_antisym (Movie.year a) (Movie.year b)).
  destruct (Sqlite.compare (Movie.year a) (Movie.year b)); simpl; auto.
  apply (total String.le).
Qed.

Lemma order_by_spelled_out (a b : Movie.t) :
  Movie.order_by a b →
  Sqlite.lt (Movie.year b) (Movie.year a) ∨
  (Movie.year a = Movie.year b ∧ String.le (Movie.title a) (Movie.title b)).
Proof.
  unfold Movie.order_by.
  destruct (Sqlite.compare (Movie.year a) (Movie.year b)) eqn:E; [| done |].
  - apply compare_eq in E. auto.
  - apply compare_gt_lt in E. auto.
Qed.

Lemma StronglySorted_lookup {A} (R : relation A) (l : list A) (i j : nat) (x y : A) :
  StronglySorted R l → (i < j)%nat → l !! i = Some x → l !! j = Some y → R x y.
Proof.
  intros Hl. revert i j.
  induction Hl as [|a l Hl IH Ha]; intros i j Hij Hi Hj; [done|].
  destruct j as [|j]; [lia|]. simpl in Hj.
  destruct i as [|i]; simpl in Hi.
  - simplify_eq. rewrite Forall_forall in Ha. apply Ha.
    by eapply list_elem_of_lookup_2.
  - eapply (IH i j); [lia|done..].
Qed.

End sqlite_order.

(** ** Listing *)

(** C1.  In every state of the store, GET /api/movies answers 200 with
    all the rows of the table (a permutation of them, nothing else), and
    for any two returned rows A before B, the year of A is greater than the
    year of B, or the years are equal and the title of A is at most the
    title of B in the lexical order of the strings (byte by byte); NULL (a
    missing year) is below every value that is present. *)
Theorem get_movies_sorted (w : world) :
  ∃ movies,
    Handler.get_movies w = (Return {| status := 200; sent := JsonMovies movies |}, w) ∧
    movies ≡ₚ snd <$> map_to_list (rows (db w)) ∧
    (∀ (i j : nat) (A B : Movie.t),
       (i < j)%nat → movies !! i = Some A → movies !! j = Some B →
       Sqlite.lt (Movie.year B) (Movie.year A) ∨
       (Movie.year A = Movie.year B ∧ String.le (Movie.title A) (Movie.title B))) ∧
    (∀ v, v ≠ SNull → Sqlite.lt SNull v).
Proof.
  exists (merge_sort Movie.order_by (snd <$> map_to_list (rows (db w)))).
  split; [by destruct w|].
  split; [apply merge_sort_Permutation|].
  split; [|apply null_lowest].
  intros i j A B Hij HA HB.
  apply order_by_spelled_out.
  eapply StronglySorted_lookup; [|done..].
  apply (StronglySorted_merge_sort _).
Qed.

(** ** Running the statements and the filesystem calls *)
Section running.

Lemma run_bind {A B} (m : M A) (f : A → M B) (w : world) :
  (m ≫= f) w =
  match m w with
  | (Return a, w') => f a w'
  | (Throw msg, w') => (Throw msg, w')
  end.
Proof. reflexivity. Qed.

Lemma run_get_world {B} (f : world → M B) (w : world) :
  (get_world ≫= f) w = f w w.
Proof. reflexivity. Qed.

Lemma run_bind_all (l : list value) (w : world) :
  mapM Db.bind l w =
  match mapM Db.bindable l with
  | Some vs => (Return vs, w)
  | None => (Throw Db.bind_error, w)
  end.
Proof.
  induction l as [|v l IH]; simpl; [done|].
  rewrite run_bind. unfold Db.bind at 1.
  destruct (Db.bindable v) as [x|]; simpl; [|done].
  rewrite run_bind, IH.
  by destruct (mapM Db.bindable l).
Qed.

Lemma run_get_by_id (s : string) (w : world) :
  Db.get_by_id (JStr s) w =
  (Return (Db.rowid_of (SText s) ≫= λ k, rows (db w) !! k), w).
Proof. reflexivity. Qed.

Lemma run_get_by_rowid (k : Z) (w : world) :
  Db.get_by_id (JNum k) w = (Return (rows (db w) !! k), w).
Proof. reflexivity. Qed.

Lemma run_insert_eq (e : env) (args : list value) (w : world) :
  Db.run_insert e args w =
  match mapM Db.bindable args with
  | None => (Throw Db.bind_error, w)
  | Some vs =>
      match Db.next_rowid (db w) with
      | None => (Throw "database or disk is full", w)
      | Some rowid =>
          match Db.stored_row rowid vs (current_timestamp e) (current_timestamp e) with
          | Throw message => (Throw message, w)
          | Return m =>
              (Return rowid,
               logged (DbInsert rowid)
                 (with_db {| rows := <[rowid := m]> (rows (db w));
                             sqlite_sequence := rowid |} w))
          end
      end
  end.
Proof.
  unfold Db.run_insert. rewrite run_bind, run_bind_all.
  destruct (mapM Db.bindable args) as [vs|]; [|done].
  rewrite run_get_world. simpl.
  destruct (Db.next_rowid (db w)) as [rowid|]; [|done].
  by destruct (Db.stored_row _ _ _ _) as [m|].
Qed.

Lemma run_update_eq (e : env) (args : list value) (s : string) (w : world) :
  Db.run_update e args (JStr s) w =
  match mapM Db.bindable args with
  | None => (Throw Db.bind_error, w)
  | Some vs =>
      match Db.rowid_of (SText s) ≫= λ rowid, pair rowid <$> rows (db w) !! rowid with
      | None => (Return (), w)
      | Some (rowid, old) =>
          match Db.stored_row rowid vs (Movie.created_at old) (current_timestamp e) with
          | Throw message => (Throw message, w)
          | Return m =>
              (Return (),
               logged (DbUpdate rowid (Movie.poster_local m))
                 (with_db {| rows := <[rowid := m]> (rows (db w));
                             sqlite_sequence := sqlite_sequence (db w) |} w))
          end
      end
  end.
Proof.
  unfold Db.run_update. rewrite run_bind, run_bind_all.
  destruct (mapM Db.bindable args) as [vs|]; [|done].
  rewrite run_bind. simpl. rewrite run_get_world.
  destruct (Db.rowid_of (SText s) ≫= _) as [[rowid old]|]; [|done].
  by destruct (Db.stored_row _ _ _ _) as [m|].
Qed.

Lemma run_delete_eq (s : string) (w : world) :
  Db.run_delete (JStr s) w =
  match Db.rowid_of (SText s) ≫= λ rowid, pair rowid <$> rows (db w) !! rowid with
  | None => (Return (), w)
  | Some (rowid, _) =>
      (Return (),
       logged (DbDelete rowid)
         (with_db {| rows := delete rowid (rows (db w));
                     sqlite_sequence := sqlite_sequence (db w) |} w))
  end.
Proof.
  unfold Db.run_delete. rewrite run_bind. simpl. rewrite run_get_world.
  by destruct (Db.rowid_of (SText s) ≫= _) as [[rowid old]|].
Qed.

Lemma run_existsSync (p : string) (w : world) :
  Fs.existsSync p w = (Return (bool_decide (p ∈ files w)), w).
Proof. reflexivity. Qed.

Lemma run_unlinkSync (p : string) (w : world) :
  Fs.unlinkSync p w =
  if bool_decide (p ∈ files w) then
    if bool_decide (p ∈ undeletable w)
    then (Throw ("EPERM: operation not permitted, unlink '" ++ p ++ "'"), w)
    else (Return (), logged (FsUnlink p) (with_files (files w ∖ {[p]}) w))
  else (Throw ("ENOENT: no such file or directory, unlink '" ++ p ++ "'"), w).
Proof.
  unfold Fs.unlinkSync. rewrite run_get_world.
  repeat case_bool_decide; done.
Qed.

(** The block [if (local) { p = path.join(__dirname, local); if
    (fs.existsSync(p)) { fs.unlinkSync(p); } }] of the update and delete
    handlers. *)
Lemma run_unlink_poster (local : value) (w : world) :
  when (JS.truthy local)
    (present ← Fs.existsSync (Handler.join_dirname local);
     when present (Fs.unlinkSync (Handler.join_dirname local))) w =
  let p := Handler.join_dirname local in
  if JS.truthy local && bool_decide (p ∈ files w) then
    if bool_decide (p ∈ undeletable w)
    then (Throw ("EPERM: operation not permitted, unlink '" ++ p ++ "'"), w)
    else (Return (), logged (FsUnlink p) (with_files (files w ∖ {[p]}) w))
  else (Return (), w).
Proof.
  unfold when. destruct (JS.truthy local); simpl; [|done].
  rewrite run_bind, run_existsSync.
  case_bool_decide as Hp; [|done].
  rewrite run_unlinkSync. by rewrite bool_decide_eq_true_2.
Qed.

Lemma run_single (e : env) (upload : option Multer.file) (w : world) :
  Multer.single e upload w =
  match upload with
  | None => (Return None, w)
  | Some f =>
      if Multer.fileFilter f then
        let name := Multer.generated_name e f in
        let p := Multer.destination_path name in
        let w1 := logged (FsWrite p) (with_files ({[p]} ∪ files w) w) in
        if Multer.fileSize <? Multer.size f then
          (Throw "File too large",
           if bool_decide (p ∈ undeletable w) then w1
           else logged (FsUnlink p) (with_files (files w1 ∖ {[p]}) w1))
        else (Return (Some {| Multer.filename := name |}), w1)
      else (Throw "Only image files are allowed", w)
  end.
Proof.
  destruct upload as [f|]; [|done]. unfold Multer.single.
  destruct (Multer.fileFilter f); [|done].
  rewrite run_bind. unfold Fs.writeFile at 1. rewrite run_get_world.
  simpl. destruct (Multer.fileSize <? Multer.size f); [|done].
  rewrite run_bind. unfold try_catch. rewrite run_unlinkSync. simpl.
  rewrite bool_decide_eq_true_2 by set_solver.
  by case_bool_decide.
Qed.

End running.

(** ** The row a create or update writes *)
Section written_row.

Lemma stored_row_inv (rowid : Z) (vs : list sqlval) (created updated : string) (m : Movie.t) :
  Db.stored_row rowid vs created updated = Return m →
  ∃ title year poster_url poster_local dop bobo_crew imdb_url tmdb_url
    trailer_url production_company synopsis,
    vs = [title; year; poster_url; poster_local; dop; bobo_crew; imdb_url;
          tmdb_url; trailer_url; production_company; synopsis] ∧
    Sqlite.text_affinity title = Some (Movie.title m) ∧
    m = {| Movie.id := rowid;
           Movie.title := Movie.title m;
           Movie.year := Sqlite.integer_affinity year;
           Movie.poster_url := Sqlite.text_affinity poster_url;
           Movie.poster_local := Sqlite.text_affinity poster_local;
           Movie.dop := Sqlite.text_affinity dop;
           Movie.bobo_crew := Sqlite.text_affinity bobo_crew;
           Movie.imdb_url := Sqlite.text_affinity imdb_url;
           Movie.tmdb_url := Sqlite.text_affinity tmdb_url;
           Movie.trailer_url := Sqlite.text_affinity trailer_url;
           Movie.production_company := Sqlite.text_affinity production_company;
           Movie.synopsis := Sqlite.text_affinity synopsis;
           Movie.created_at := created;
           Movie.updated_at := updated |}.
Proof.
  intros H. unfold Db.stored_row in H.
  do 11 (destruct vs as [|? vs]; [done|]).
  destruct vs; [|done].
  destruct (Sqlite.text_affinity _) as [t|] eqn:Ht; [|done].
  injection H as <-. simpl. eauto 15.
Qed.

(** Every column of the written row, in terms of the request. *)
Lemma written_columns (b : Body.t) (poster_local : value) (vs : list sqlval)
    (rowid : Z) (created updated : string) (m : Movie.t) :
  mapM Db.bindable (column_values b poster_local) = Some vs →
  Db.stored_row rowid vs created updated = Return m →
  Movie.id m = rowid ∧
  stored_text (Body.title b) (Some (Movie.title m)) ∧
  stored_integer (JS.or_null (Body.year b)) (Movie.year m) ∧
  stored_text (JS.or_null (Body.poster_url b)) (Movie.poster_url m) ∧
  stored_text poster_local (Movie.poster_local m) ∧
  stored_text (JS.or_null (Body.dop b)) (Movie.dop m) ∧
  stored_text (JS.or_null (Body.bobo_crew b)) (Movie.bobo_crew m) ∧
  stored_text (JS.or_null (Body.imdb_url b)) (Movie.imdb_url m) ∧
  stored_text (JS.or_null (Body.tmdb_url b)) (Movie.tmdb_url m) ∧
  stored_text (JS.or_null (Body.trailer_url b)) (Movie.trailer_url m) ∧
  stored_text (JS.or_null (Body.production_company b)) (Movie.production_company m) ∧
  stored_text (JS.or_null (Body.synopsis b)) (Movie.synopsis m) ∧
  Movie.created_at m = created ∧ Movie.updated_at m = updated.
Proof.
  intros Hvs Hm.
  apply stored_row_inv in Hm as (?&?&?&?&?&?&?&?&?&?&?&->&Ht&->).
  unfold column_values in Hvs. simpl in Hvs.
  unfold stored_text, stored_integer.
  repeat match type of Hvs with
         | context [Db.bindable ?v] =>
             destruct (Db.bindable v) eqn:?; simpl in Hvs; [|done]
         end.
  unfold mret, option_ret in Hvs. simplify_eq. simpl.
  split_and!; first [done | eexists; split; [reflexivity|]; by rewrite ?Ht].
Qed.

Lemma or_null_falsy (v : value) : JS.truthy v = false → JS.or_null v = JNull.
Proof. unfold JS.or_null. by intros ->. Qed.







End written_row.

(** ** What each route can do *)
Section routes.

Lemma single_db (e : env) (upload : option Multer.file) (w w1 : world)
    (o : outcome (option Multer.stored)) :
  Multer.single e upload w = (o, w1) → db w1 = db w.
Proof.
  rewrite run_single. cbv zeta. intros H.
  repeat case_match; by simplify_eq.
Qed.

Lemma create_cases (e : env) (req : request) (w w' : world) (o : outcome response) :
  App.create e req w = (o, w') →
  ∃ resp, o = Return resp ∧
  (failed w w' resp ∨
   ∃ file w1 vs rowid m,
     Multer.single e (poster req) w = (Return file, w1) ∧
     mapM Db.bindable (column_values (body req) (local_of file)) = Some vs ∧
     Db.next_rowid (db w1) = Some rowid ∧
     Db.stored_row rowid vs (current_timestamp e) (current_timestamp e) = Return m ∧
     w' = logged (DbInsert rowid)
            (with_db {| rows := <[rowid := m]> (rows (db w1));
                        sqlite_sequence := rowid |} w1) ∧
     resp = {| status := 201; sent := JsonMovie m |}).
Proof.
  unfold App.create, App.with_upload, try_catch. rewrite run_bind.
  destruct (Multer.single e (poster req) w) as [[file|msg] w1] eqn:Hup; last first.
  { intros [= <- <-]. eexists; split; [done|]. left.
    repeat split; eauto using single_db. }
  apply single_db in Hup as Hdb.
  unfold Handler.post_movie, try_catch. rewrite run_bind, run_insert_eq.
  fold (local_of file).
  destruct (mapM Db.bindable _) as [vs|] eqn:Hvs; last first.
  { intros [= <- <-]. eexists; split; [done|]. left. repeat split; eauto. }
  destruct (Db.next_rowid (db w1)) as [rowid|] eqn:Hnext; last first.
  { intros [= <- <-]. eexists; split; [done|]. left. repeat split; eauto. }
  destruct (Db.stored_row _ _ _ _) as [m|msg] eqn:Hm; last first.
  { intros [= <- <-]. eexists; split; [done|]. left. repeat split; eauto. }
  rewrite run_bind, run_get_by_rowid. simpl. rewrite lookup_insert_eq.
  intros [= <- <-]. eexists; split; [done|]. right.
  by exists file, w1, vs, rowid, m.
Qed.

Lemma lookup_pair (s : string) (w : world) (k : Z) (old : Movie.t) :
  Db.rowid_of (SText s) = Some k → rows (db w) !! k = Some old →
  (Db.rowid_of (SText s) ≫= λ rowid, pair rowid <$> rows (db w) !! rowid) = Some (k, old).
Proof. intros -> Hk. simpl. by rewrite Hk. Qed.

Lemma update_cases (e : env) (req : request) (w w' : world) (o : outcome response) :
  App.update e req w = (o, w') →
  ∃ resp, o = Return resp ∧
  (failed w w' resp ∨
   (status resp = 404 ∧ db w' = db w ∧
    (Db.rowid_of (SText (params_id req)) ≫= λ k, rows (db w) !! k) = None) ∨
   ∃ file w1 k old vs m,
     Multer.single e (poster req) w = (Return file, w1) ∧
     Db.rowid_of (SText (params_id req)) = Some k ∧
     rows (db w) !! k = Some old ∧
     mapM Db.bindable (column_values (body req) (local_kept file old)) = Some vs ∧
     Db.stored_row k vs (Movie.created_at old) (current_timestamp e) = Return m ∧
     w' = logged (DbUpdate k (Movie.poster_local m))
            (with_db {| rows := <[k := m]> (rows (db w));
                        sqlite_sequence := sqlite_sequence (db w) |}
               (old_poster_removed file old w1)) ∧
     resp = {| status := 200; sent := JsonMovie m |}).
Proof.
  unfold App.update, App.with_upload, try_catch. rewrite run_bind.
  destruct (Multer.single e (poster req) w) as [[file|msg] w1] eqn:Hup; last first.
  { intros [= <- <-]. eexists; split; [done|]. left.
    repeat split; eauto using single_db. }
  apply single_db in Hup as Hdb.
  unfold Handler.put_movie, try_catch. rewrite run_bind, run_get_by_id, Hdb.
  destruct (Db.rowid_of (SText (params_id req))) as [k|] eqn:Hk; simpl; last first.
  { intros [= <- <-]. eexists; split; [done|]. right; left. done. }
  destruct (rows (db w) !! k) as [old|] eqn:Hold; simpl; last first.
  { intros [= <- <-]. eexists; split; [done|]. right; left. done. }
  rewrite run_bind.
  set (existing := Handler.js_of (Movie.poster_local old)).
  assert (∃ o2 w2,
    (match file with
     | Some f =>
         when (JS.truthy existing)
           (present ← Fs.existsSync (Handler.join_dirname existing);
            when present (Fs.unlinkSync (Handler.join_dirname existing)));;
         mret (JStr (poster_path f))
     | None => mret existing
     end) w1 = (o2, w2) ∧ db w2 = db w ∧
    ((∃ msg, o2 = Throw msg) ∨
     (o2 = Return (local_kept file old) ∧ w2 = old_poster_removed file old w1)))
    as (o2 & w2 & -> & Hdb2 & Ho2).
  { destruct file as [f|]; simpl; [|by eauto 10].
    rewrite run_bind, run_unlink_poster. cbv zeta.
    unfold old_poster_removed. fold existing.
    destruct (JS.truthy existing && bool_decide _); [|by eauto 10].
    case_bool_decide; eauto 10. }
  destruct Ho2 as [[msg ->]|[-> ->]].
  { intros [= <- <-]. eexists; split; [done|]. left. repeat split; eauto. }
  rewrite run_bind, run_update_eq.
  destruct (mapM Db.bindable _) as [vs|] eqn:Hvs; last first.
  { intros [= <- <-]. eexists; split; [done|]. left. repeat split; eauto. }
  rewrite (lookup_pair _ _ k old) by (by rewrite ?Hdb2).
  destruct (Db.stored_row _ _ _ _) as [m|msg] eqn:Hm; last first.
  { intros [= <- <-]. eexists; split; [done|]. left. repeat split; eauto. }
  rewrite run_bind, run_get_by_id, Hk. simpl. rewrite Hdb2, lookup_insert_eq.
  intros [= <- <-]. eexists; split; [done|]. right; right.
  by exists file, w1, k, old, vs, m.
Qed.

Lemma delete_existing (req : request) (w : world) (k : Z) (old : Movie.t) :
  Db.rowid_of (SText (params_id req)) = Some k →
  rows (db w) !! k = Some old →
  Handler.delete_movie req w =
  let posterPath := Handler.join_dirname (Handler.js_of (Movie.poster_local old)) in
  let deleted (w1 : world) :=
    (Return {| status := 200; sent := JsonMessage "Movie deleted successfully" |},
     logged (DbDelete k)
       (with_db {| rows := delete k (rows (db w));
                   sqlite_sequence := sqlite_sequence (db w) |} w1)) in
  if JS.truthy (Handler.js_of (Movie.poster_local old)) &&
     bool_decide (posterPath ∈ files w)
  then
    if bool_decide (posterPath ∈ undeletable w)
    then (Return {| status := 500;
                    sent := JsonError ("EPERM: operation not permitted, unlink '"
                                       ++ posterPath ++ "'") |}, w)
    else deleted (unlinked posterPath w)
  else deleted w.
Proof.
  intros Hk Hold.
  unfold Handler.delete_movie, try_catch.
  rewrite run_bind, run_get_by_id, Hk. simpl. rewrite Hold.
  rewrite run_bind, run_unlink_poster. cbv zeta.
  destruct (JS.truthy _ && bool_decide _).
  - case_bool_decide; [done|].
    rewrite run_bind, run_delete_eq.
    by rewrite (lookup_pair _ _ k old).
  - rewrite run_bind, run_delete_eq.
    by rewrite (lookup_pair _ _ k old).
Qed.

End routes.

(** ** Create and update: the fields that are written *)
Section fields.

Lemma single_stored (e : env) (f : Multer.file) (w w1 : world)
    (file : option Multer.stored) :
  Multer.single e (Some f) w = (Return file, w1) →
  file = Some {| Multer.filename := Multer.generated_name e f |} ∧
  Multer.fileFilter f = true ∧ Multer.size f ≤ Multer.fileSize ∧
  w1 = logged (FsWrite (Multer.destination_path (Multer.generated_name e f)))
         (with_files ({[Multer.destination_path (Multer.generated_name e f)]} ∪ files w) w).
Proof.
  rewrite run_single. cbv zeta.
  destruct (Multer.fileFilter f); [|done].
  destruct (Z.ltb_spec Multer.fileSize (Multer.size f)); [done|].
  by intros [= <- <-].
Qed.

Lemma single_none (e : env) (w w1 : world) (o : outcome (option Multer.stored)) :
  Multer.single e None w = (o, w1) → o = Return None ∧ w1 = w.
Proof. by intros [= <- <-]. Qed.

Lemma stored_text_js_of (local x : option string) :
  stored_text (Handler.js_of local) x → x = local.
Proof. intros (y & Hy & ->). destruct local; by injection Hy as <-. Qed.

Lemma stored_text_path (p : string) (x : option string) :
  stored_text (JStr p) x → x = Some p.
Proof. by intros (y & [= <-] & ->). Qed.

Lemma omitted_text (v : value) (x : option string) :
  v = JUndefined → stored_text (JS.or_null v) x → x = None.
Proof. by intros -> (y & [= <-] & ->). Qed.

Lemma omitted_integer (v : value) (x : sqlval) :
  v = JUndefined → stored_integer (JS.or_null v) x → x = SNull.
Proof. by intros -> (y & [= <-] & ->). Qed.

End fields.

(** ** Update *)

(** C2, as stated, fails: on an installation whose movie 1 has an uploaded
    poster, an update that sends a title and nothing else (no file, no
    other field) answers 200 and leaves [poster_local] at the stored path,
    not at NULL. *)
Lemma update_without_file_keeps_poster_local :
  ∃ (old m : Movie.t) (w' : world),
    rows (db (Sample.one_movie ∅)) !! 1 = Some old ∧
    Movie.poster_local old = Some Sample.stored_png ∧
    App.update Sample.later (Sample.form "1" "New title" None) (Sample.one_movie ∅)
      = (Return {| status := 200; sent := JsonMovie m |}, w') ∧
    rows (db w') !! 1 = Some m ∧
    Movie.title m = "New title" ∧
    Movie.poster_local m = Some Sample.stored_png ∧
    Movie.poster_local m ≠ None.
Proof.
  eexists _, _, _.
  split; [vm_compute; reflexivity|].
  split; [reflexivity|].
  split; [vm_compute; reflexivity|].
  split; [vm_compute; reflexivity|].
  done.
Qed.

(** C2, amended.  An update that succeeds (it answers 200) replaces the
    row of the record: each of year, poster_url, dop, bobo_crew, imdb_url,
    tmdb_url, trailer_url, production_company and synopsis that the request
    omits is stored as NULL, whatever it was before.  [poster_local] is
    the exception: with an uploaded file it becomes the path of that file,
    without one it keeps the stored value. *)
Theorem update_replaces_fields (e : env) (req : request) (w w' : world)
    (resp : response) :
  App.update e req w = (Return resp, w') →
  status resp = 200 →
  ∃ (k : Z) (old m : Movie.t),
    Db.rowid_of (SText (params_id req)) = Some k ∧
    rows (db w) !! k = Some old ∧
    sent resp = JsonMovie m ∧
    rows (db w') = <[k := m]> (rows (db w)) ∧
    (Body.year (body req) = JUndefined → Movie.year m = SNull) ∧
    (Body.poster_url (body req) = JUndefined → Movie.poster_url m = None) ∧
    (Body.dop (body req) = JUndefined → Movie.dop m = None) ∧
    (Body.bobo_crew (body req) = JUndefined → Movie.bobo_crew m = None) ∧
    (Body.imdb_url (body req) = JUndefined → Movie.imdb_url m = None) ∧
    (Body.tmdb_url (body req) = JUndefined → Movie.tmdb_url m = None) ∧
    (Body.trailer_url (body req) = JUndefined → Movie.trailer_url m = None) ∧
    (Body.production_company (body req) = JUndefined →
     Movie.production_company m = None) ∧
    (Body.synopsis (body req) = JUndefined → Movie.synopsis m = None) ∧
    Movie.poster_local m =
      match poster req with
      | Some f => Some ("/uploads/posters/" ++ Multer.generated_name e f)
      | None => Movie.poster_local old
      end.
Proof.
  intros Hrun Hstatus.
  apply update_cases in Hrun as (resp' & [= <-] & Hcases).
  destruct Hcases as [(H500 & _)|[(H404 & _)|Hok]]; [congruence..|].
  destruct Hok as (file & w1 & k & old & vs & m & Hup & Hk & Hold & Hvs & Hm & -> & ->).
  exists k, old, m.
  destruct (written_columns _ _ _ _ _ _ _ Hvs Hm)
    as (_ & _ & Hy & Hpu & Hpl & Hd & Hb & Hi & Ht & Htr & Hpc & Hs & _).
  split_and!; try done; eauto using omitted_text, omitted_integer.
  destruct (poster req) as [f|].
  - apply single_stored in Hup as (-> & _). by apply stored_text_path.
  - apply single_none in Hup as ([= ->] & _). by apply stored_text_js_of.
Qed.

Lemma update_replaces_fields_witness :
  ∃ (k : Z) (old m : Movie.t),
    Db.rowid_of (SText "1") = Some k ∧
    rows (db (Sample.one_movie ∅)) !! k = Some old ∧
    JsonMovie m = JsonMovie m ∧
    rows (db (App.update Sample.later (Sample.form "1" "New title" None)
                (Sample.one_movie ∅)).2) = <[k := m]> (rows (db (Sample.one_movie ∅))) ∧
    Movie.year m = SNull ∧ Movie.synopsis m = None ∧
    Movie.poster_local m = Some Sample.stored_png.
Proof.
  destruct (App.update Sample.later (Sample.form "1" "New title" None)
              (Sample.one_movie ∅)) as [o w'] eqn:Hrun.
  assert (∃ resp, o = Return resp ∧ status resp = 200) as (resp & -> & Hstatus).
  { vm_compute in Hrun. injection Hrun as <- _. eexists; split; reflexivity. }
  destruct (update_replaces_fields _ _ _ _ _ Hrun Hstatus)
    as (k & old & m & Hk & Hold & Hsent & Hrows & Hy & _ & _ & _ & _ & _ & _ & _ & Hs & Hpl).
  exists k, old, m. simpl in *.
  assert (k = 1) as -> by (vm_compute in Hk; congruence).
  repeat split; try done; [by apply Hy|by apply Hs|].
  rewrite Hpl. vm_compute in Hold. by simplify_eq.
Defined.

(** ** Optional fields *)



(** ** Create *)




(** ** Delete *)

(** C4, as stated, fails: movie 1 has a poster on disk that cannot be
    unlinked; the delete request is answered with 500 and changes nothing,
    so the row is still in the table. *)
Lemma delete_blocked_by_failing_unlink :
  ∃ old : Movie.t,
    rows (db (Sample.one_movie {[Sample.stored_png]})) !! 1 = Some old ∧
    Movie.poster_local old = Some Sample.stored_png ∧
    Sample.stored_png ∈ files (Sample.one_movie {[Sample.stored_png]}) ∧
    Handler.delete_movie (Sample.form "1" "" None) (Sample.one_movie {[Sample.stored_png]})
      = (Return {| status := 500;
                   sent := JsonError ("EPERM: operation not permitted, unlink '"
                                      ++ Sample.stored_png ++ "'") |},
         Sample.one_movie {[Sample.stored_png]}).
Proof.
  eexists. split; [vm_compute; reflexivity|].
  split; [reflexivity|]. split; [by vm_compute|by vm_compute].
Qed.

(** C4, amended.  For a delete of an existing record: when the poster
    file is on disk and removing it fails, the request is answered with 500
    and nothing changes, the row stays; in every other case (no poster, the
    file already missing, or the file removed) the row is deleted and the
    request is answered with 200. *)
Theorem delete_unless_unlink_fails (req : request) (w : world) (k : Z) (old : Movie.t) :
  Db.rowid_of (SText (params_id req)) = Some k →
  rows (db w) !! k = Some old →
  let local := Handler.js_of (Movie.poster_local old) in
  let posterPath := Handler.join_dirname local in
  let removal_fails :=
    JS.truthy local && bool_decide (posterPath ∈ files w)
    && bool_decide (posterPath ∈ undeletable w) in
  ∃ (resp : response) (w' : world),
    Handler.delete_movie req w = (Return resp, w') ∧
    (removal_fails = true → status resp = 500 ∧ w' = w) ∧
    (removal_fails = false →
       status resp = 200 ∧ rows (db w') = delete k (rows (db w)) ∧
       (JS.truthy local = true → posterPath ∉ files w')).
Proof.
  intros Hk Hold local posterPath removal_fails.
  rewrite (delete_existing req w k old Hk Hold). cbv zeta.
  subst removal_fails. fold local. fold posterPath.
  destruct (JS.truthy local); simpl.
  - case_bool_decide as Hfile; simpl.
    + case_bool_decide; simpl.
      * eexists _, _. split; [done|]. by split.
      * eexists _, _. split; [done|]. split; [done|]. intros _.
        split; [done|]. split; [done|]. intros _. simpl.
        rewrite elem_of_difference, elem_of_singleton. by intros [_ ?].
    + eexists _, _. split; [done|]. split; [done|]. intros _. by repeat split.
  - eexists _, _. split; [done|]. split; [done|]. intros _. by repeat split.
Qed.

Lemma delete_unless_unlink_fails_witness :
  ∃ (resp : response) (w' : world),
    Handler.delete_movie (Sample.form "1" "" None) (Sample.one_movie ∅) = (Return resp, w') ∧
    status resp = 200 ∧ rows (db w') = delete 1 (rows (db (Sample.one_movie ∅))) ∧
    Sample.stored_png ∉ files w'.
Proof.
  assert (∃ old, rows (db (Sample.one_movie ∅)) !! 1 = Some old ∧
                 Movie.poster_local old = Some Sample.stored_png) as (old & Hold & Hlocal).
  { eexists. split; [vm_compute; reflexivity|reflexivity]. }
  destruct (delete_unless_unlink_fails (Sample.form "1" "" None) (Sample.one_movie ∅) 1 old)
    as (resp & w' & Hrun & _ & Hok); [reflexivity|exact Hold|].
  rewrite Hlocal in Hok. simpl in Hok.
  exists resp, w'. split; [exact Hrun|].
  destruct Hok as (? & ? & Hgone).
  { rewrite andb_false_r. reflexivity. }
  split; [done|]. split; [done|]. by apply Hgone.
Defined.

(** ** Replacing a poster *)




(** An update that fails after the unlink is not covered by the statement
    above: a multipart update with a new file and no title removes the old
    poster, then the UPDATE statement throws, and the row still names the
    removed file. *)
Lemma failed_update_has_unlinked :
  ∃ (old : Movie.t) (w' : world),
    App.update Sample.later
      {| params_id := "1"; body := Body.empty; poster := Some Sample.png |}
      (Sample.one_movie ∅)
      = (Return {| status := 500; sent := JsonError Db.bind_error |}, w') ∧
    rows (db w') !! 1 = Some old ∧
    Movie.poster_local old = Some Sample.stored_png ∧
    Sample.stored_png ∉ files w'.
Proof.
  eexists _, _. split; [vm_compute; reflexivity|].
  split; [vm_compute; reflexivity|]. split; [reflexivity|by vm_compute].
Qed.

(** ** Uploads *)

Lemma rejected_upload_changes_nothing (e : env) (req : request) (w : world)
    (f : Multer.file) (handler : option Multer.stored → M response) :
  poster req = Some f →
  Multer.fileFilter f = false →
  App.with_upload e req handler w =
  (Return {| status := 500; sent := ErrorPage "Only image files are allowed" |}, w).
Proof.
  intros Hf Hfilter. unfold App.with_upload, try_catch.
  rewrite run_bind, run_single, Hf, Hfilter. done.
Qed.

(** C6 fails on the code.  The extension [.pngx] is not one of .jpg,
    .jpeg, .png and .webp, yet the filter accepts the file (the expression
    it tests the extension with is not anchored, so an extension that
    contains [png] passes): the create request is answered with 201, the
    row is inserted and the file is stored. *)
Theorem extension_outside_allow_list_is_accepted :
  Multer.toLowerCase (Multer.extname (Multer.originalname Sample.pngx)) = ".pngx" ∧
  (".pngx" ∉ allowed_extensions) ∧
  Multer.fileFilter Sample.pngx = true ∧
  ∃ (m : Movie.t) (w' : world),
    App.create Sample.clock (Sample.form "" "Test Film" (Some Sample.pngx))
               (App.installed ∅ ∅)
      = (Return {| status := 201; sent := JsonMovie m |}, w') ∧
    rows (db w') !! 1 = Some m ∧
    Movie.poster_local m = Some "/uploads/posters/1700000000000-123456789.pngx" ∧
    "/uploads/posters/1700000000000-123456789.pngx" ∈ files w'.
Proof.
  split; [reflexivity|]. split; [compute_done|].
  split; [reflexivity|].
  eexists _, _. split; [vm_compute; reflexivity|].
  split; [vm_compute; reflexivity|]. split; [reflexivity|by vm_compute].
Qed.

(** C7, as stated, fails: a six-megabyte PNG is rejected, but with the
    default 500 error page of Express, not with a status between 400 and
    499; and the rejection comes after the stream was being written to the
    destination (the write is in the log, followed by the unlink). *)
Lemma oversized_upload_is_500 :
  Multer.fileSize < Multer.size Sample.big ∧
  ∃ w' : world,
    App.create Sample.clock (Sample.form "" "Test Film" (Some Sample.big))
               (App.installed ∅ ∅)
      = (Return {| status := 500; sent := ErrorPage "File too large" |}, w') ∧
    ¬ (400 ≤ 500 < 500) ∧
    log w' = [FsWrite Sample.stored_png; FsUnlink Sample.stored_png].
Proof.
  split; [done|]. eexists. split; [vm_compute; reflexivity|].
  split; [lia|reflexivity].
Qed.

(** C7, amended.  A create or update request whose file is larger than
    5 MB (5 * 1024 * 1024 bytes) is rejected before its handler runs: the
    answer is the 500 error page, the table is unchanged, and, when the
    partial file can be unlinked, no file is on disk that was not there
    before. *)
Theorem oversized_upload_rejected (e : env) (req : request) (w : world)
    (f : Multer.file) (route : env → request → M response) :
  route = App.create ∨ route = App.update →
  poster req = Some f →
  Multer.fileSize < Multer.size f →
  ∃ (message : string) (w' : world),
    route e req w = (Return {| status := 500; sent := ErrorPage message |}, w') ∧
    db w' = db w ∧
    (Multer.destination_path (Multer.generated_name e f) ∉ undeletable w →
     files w' ⊆ files w).
Proof.
  intros Hroute Hf Hsize.
  assert (∃ handler, route e req = App.with_upload e req handler) as [handler ->].
  { destruct Hroute as [-> | ->]; eexists; reflexivity. }
  unfold App.with_upload, try_catch.
  rewrite run_bind, run_single, Hf. cbv zeta.
  destruct (Multer.fileFilter f).
  - rewrite (proj2 (Z.ltb_lt _ _) Hsize).
    eexists _, _. split; [done|].
    case_bool_decide as Hlocked; [by split|].
    split; [done|]. intros _. simpl.
    intros p. rewrite elem_of_difference, elem_of_union. tauto.
  - eexists _, _. split; [done|]. by split.
Qed.

Lemma oversized_upload_rejected_witness :
  ∃ (message : string) (w' : world),
    App.update Sample.later (Sample.form "1" "Test Film" (Some Sample.big))
               (Sample.one_movie ∅)
      = (Return {| status := 500; sent := ErrorPage message |}, w') ∧
    db w' = db (Sample.one_movie ∅) ∧
    files w' ⊆ files (Sample.one_movie ∅).
Proof.
  destruct (oversized_upload_rejected Sample.later
              (Sample.form "1" "Test Film" (Some Sample.big))
              (Sample.one_movie ∅) Sample.big App.update)
    as (message & w' & Hrun & Hdb & Hfiles);
    [by right|reflexivity|reflexivity|].
  exists message, w'. split; [exact Hrun|]. split; [exact Hdb|].
  apply Hfiles. by vm_compute.
Defined.

(** ** Rowids *)
Section rowids.

Lemma preserves_ret {A} (P : world → Prop) (a : A) : preserves P (mret a).
Proof. by intros w o w' HP [= <- <-]. Qed.

Lemma preserves_throw {A} (P : world → Prop) (msg : string) :
  preserves P (throw (A := A) msg).
Proof. by intros w o w' HP [= <- <-]. Qed.

Lemma preserves_bind {A B} (P : world → Prop) (m : M A) (f : A → M B) :
  preserves P m → (∀ a, preserves P (f a)) → preserves P (m ≫= f).
Proof.
  intros Hm Hf w o w' HP. rewrite run_bind.
  destruct (m w) as [[a|msg] w1] eqn:Em.
  - apply (Hf a). by eapply Hm.
  - intros [= <- <-]. by eapply Hm.
Qed.

Lemma preserves_fmap {A B} (P : world → Prop) (m : M A) (f : A → B) :
  preserves P m → preserves P (f <$> m).
Proof. intros Hm. apply preserves_bind; [done|]. intros a. apply preserves_ret. Qed.

Lemma preserves_try_catch {A} (P : world → Prop) (body : M A) (handler : string → M A) :
  preserves P body → (∀ msg, preserves P (handler msg)) →
  preserves P (try_catch body handler).
Proof.
  intros Hm Hh w o w' HP. unfold try_catch.
  destruct (body w) as [[a|msg] w1] eqn:Em.
  - intros [= <- <-]. by eapply Hm.
  - apply (Hh msg). by eapply Hm.
Qed.

Lemma preserves_when (P : world → Prop) (c : bool) (body : M unit) :
  preserves P body → preserves P (when c body).
Proof. destruct c; [done|]. intros _. apply preserves_ret. Qed.

Lemma preserves_mapM {A B} (P : world → Prop) (f : A → M B) (l : list A) :
  (∀ a, preserves P (f a)) → preserves P (mapM f l).
Proof.
  intros Hf. induction l as [|a l IH]; simpl; [apply preserves_ret|].
  apply preserves_bind; [done|]. intros b.
  apply preserves_bind; [done|]. intros bs. apply preserves_ret.
Qed.

(** A computation that reads the world and leaves it alone. *)
Lemma preserves_read {A} (P : world → Prop) (m : M A) :
  (∀ w o w', m w = (o, w') → w' = w) → preserves P m.
Proof. intros Hm w o w' HP Hrun. by rewrite (Hm _ _ _ Hrun). Qed.

Lemma get_by_id_reads (x : value) (w w' : world) (o : outcome (option Movie.t)) :
  Db.get_by_id x w = (o, w') → w' = w.
Proof.
  unfold Db.get_by_id, Db.bind. rewrite run_bind.
  destruct (Db.bindable x); by intros [= <- <-].
Qed.

Lemma same_ids_refl (w : world) : same_ids w w.
Proof. by repeat split. Qed.

Lemma same_ids_trans (w1 w2 w3 : world) : same_ids w1 w2 → same_ids w2 w3 → same_ids w1 w3.
Proof.
  intros (Hd1 & Ha1 & Hl1) (Hd2 & Ha2 & Hl2).
  split; [congruence|]. split; [congruence|].
  intros k. by rewrite Hl2, Hl1.
Qed.

Lemma same_ids_fs (ev : event) (fs : gset string) (w : world) :
  (∀ k, ev ≠ DbInsert k) → (∀ k, ev ≠ DbDelete k) →
  same_ids w (logged ev (with_files fs w)).
Proof.
  intros Hins Hdel. split; [done|]. split.
  - unfold assigned_ids. simpl. rewrite omap_app. simpl.
    destruct ev; try by rewrite app_nil_r. by destruct (Hins rowid).
  - intros k. simpl. rewrite elem_of_app, list_elem_of_singleton.
    split; [intros [?|?]; [done|]|by left]. by destruct (Hdel k).
Qed.

Lemma same_ids_accounted (w w' : world) : same_ids w w' → ids_accounted w → ids_accounted w'.
Proof.
  intros (Hd & Ha & Hl) [H1 H2 H3 H4].
  split; rewrite ?Hd, ?Ha; [done..| |done].
  intros k Hk. apply H3. by apply Hl.
Qed.

Lemma unlinkSync_same_ids (p : string) (w w' : world) (o : outcome unit) :
  Fs.unlinkSync p w = (o, w') → same_ids w w'.
Proof.
  rewrite run_unlinkSync. intros H.
  repeat case_bool_decide; simplify_eq; try apply same_ids_refl.
  by apply same_ids_fs.
Qed.

Lemma single_same_ids (e : env) (upload : option Multer.file) (w w1 : world)
    (o : outcome (option Multer.stored)) :
  Multer.single e upload w = (o, w1) → same_ids w w1.
Proof.
  rewrite run_single. cbv zeta. intros H.
  repeat case_match; simplify_eq; try apply same_ids_refl.
  - by apply same_ids_fs.
  - eapply same_ids_trans; by apply same_ids_fs.
  - by apply same_ids_fs.
Qed.

Lemma assigned_ids_snoc (l : list event) (ev : event) :
  assigned_ids (l ++ [ev]) =
  (assigned_ids l ++ match ev with DbInsert k => [k] | _ => [] end)%list.
Proof. unfold assigned_ids. rewrite omap_app. by destruct ev. Qed.

Lemma next_rowid_above (d : database) (rowid : Z) :
  Db.next_rowid d = Some rowid → sqlite_sequence d < rowid.
Proof. unfold Db.next_rowid. case_match; [|done]. intros [= <-]. lia. Qed.

Lemma unlinkSync_accounted (p : string) : preserves ids_accounted (Fs.unlinkSync p).
Proof. intros w o w' Hw Hrun. eapply same_ids_accounted; eauto using unlinkSync_same_ids. Qed.

Lemma single_accounted (e : env) (upload : option Multer.file) :
  preserves ids_accounted (Multer.single e upload).
Proof. intros w o w' Hw Hrun. eapply same_ids_accounted; eauto using single_same_ids. Qed.

Lemma run_insert_accounted (e : env) (args : list value) :
  preserves ids_accounted (Db.run_insert e args).
Proof.
  intros w o w' [Hle Hnd Hdel Hst]. rewrite run_insert_eq. cbv zeta. intros Hrun.
  destruct (mapM Db.bindable args); [|by simplify_eq].
  destruct (Db.next_rowid (db w)) as [rowid|] eqn:Hnext; [|by simplify_eq].
  apply next_rowid_above in Hnext.
  destruct (Db.stored_row _ _ _ _) as [m|]; [|by simplify_eq].
  simplify_eq.
  split; simpl; rewrite ?assigned_ids_snoc.
  - intros k [Hk| ->%list_elem_of_singleton]%elem_of_app; [|lia].
    apply Hle in Hk. lia.
  - apply NoDup_app. split; [done|]. split; [|apply NoDup_singleton].
    intros k Hk ->%list_elem_of_singleton. apply Hle in Hk. lia.
  - intros k [Hk|[=]%list_elem_of_singleton]%elem_of_app.
    apply elem_of_app. left. by apply Hdel.
  - intros k. rewrite lookup_insert. case_decide as Hk.
    + intros _. subst k. apply elem_of_app. right. by apply list_elem_of_singleton.
    + intros Hk'. apply elem_of_app. left. by apply Hst.
Qed.

Lemma run_update_accounted (e : env) (args : list value) (s : string) :
  preserves ids_accounted (Db.run_update e args (JStr s)).
Proof.
  intros w o w' [Hle Hnd Hdel Hst]. rewrite run_update_eq. intros Hrun.
  destruct (mapM Db.bindable args); [|by simplify_eq].
  destruct (Db.rowid_of (SText s)) as [k0|]; simpl in Hrun; [|by simplify_eq].
  destruct (rows (db w) !! k0) as [old|] eqn:Hold; simpl in Hrun; [|by simplify_eq].
  destruct (Db.stored_row _ _ _ _) as [m|]; [|by simplify_eq].
  simplify_eq.
  split; simpl; rewrite ?assigned_ids_snoc, ?app_nil_r; try done.
  - intros k [Hk|[=]%list_elem_of_singleton]%elem_of_app. by apply Hdel.
  - intros k. rewrite lookup_insert. case_decide as Hk; [|by apply Hst].
    intros _. subst k. apply Hst. by rewrite Hold.
Qed.

Lemma run_delete_accounted (s : string) : preserves ids_accounted (Db.run_delete (JStr s)).
Proof.
  intros w o w' [Hle Hnd Hdel Hst]. rewrite run_delete_eq. intros Hrun.
  destruct (Db.rowid_of (SText s)) as [k0|]; simpl in Hrun; [|by simplify_eq].
  destruct (rows (db w) !! k0) as [old|] eqn:Hold; simpl in Hrun; [|by simplify_eq].
  simplify_eq.
  split; simpl; rewrite ?assigned_ids_snoc, ?app_nil_r; try done.
  - intros k [Hk|[= ->]%list_elem_of_singleton]%elem_of_app; [by apply Hdel|].
    apply Hst. by rewrite Hold.
  - intros k. rewrite lookup_delete. case_decide; [by intros [? [=]]|by apply Hst].
Qed.

Ltac preserve :=
  repeat first
    [ apply preserves_ret | apply preserves_throw
    | apply run_insert_accounted | apply run_update_accounted
    | apply run_delete_accounted | apply unlinkSync_accounted
    | apply single_accounted
    | apply preserves_read; solve [eauto using get_by_id_reads | by intros ??? [= <- <-]]
    | apply preserves_try_catch | apply preserves_bind | apply preserves_when
    | apply preserves_fmap | apply preserves_mapM
    | match goal with |- ∀ _, _ => intros ? end
    | progress cbv zeta
    | match goal with |- preserves _ (match ?x with _ => _ end) => destruct x end ].

Lemma serve_accounted (e : env) (c : App.call) : preserves ids_accounted (App.serve e c).
Proof.
  destruct c as [|req|req|req|req|]; simpl.
  - unfold Handler.get_movies, Db.all_ordered, json. preserve.
  - unfold Handler.get_movie, json. preserve.
  - unfold App.create, App.with_upload, Handler.post_movie, json_row, json. preserve.
  - unfold App.update, App.with_upload, Handler.put_movie, json_row, json. preserve.
  - unfold Handler.delete_movie, json. preserve.
  - unfold App.startup, App.insert_seed, Db.count. preserve.
Qed.

Lemma installed_accounted (fs locked : gset string) : ids_accounted (App.installed fs locked).
Proof.
  split; simpl; [by intros k ?%elem_of_nil|apply NoDup_nil_2
                |by intros k ?%elem_of_nil|].
  intros k. rewrite lookup_empty. by intros [? [=]].
Qed.

Lemma reachable_accounted (w : world) : App.reachable w → ids_accounted w.
Proof.
  induction 1 as [fs locked|w e c _ IH]; [apply installed_accounted|].
  destruct (App.serve e c w) as [o w'] eqn:Hrun.
  by eapply serve_accounted.
Qed.

End rowids.

(** C8.  On every installation reached from a new one by any sequence of
    requests and restarts, a create that succeeds answers with a row whose id
    was never given out before: it is not among the rowids the table has
    assigned so far (the seed rows included), hence not the id of any row
    that was deleted nor of any row still stored; the rowids assigned stay
    free of repetitions. *)
Theorem created_id_never_reused (e : env) (req : request) (w w' : world)
    (resp : response) :
  App.reachable w →
  App.create e req w = (Return resp, w') →
  status resp = 201 →
  ∃ m : Movie.t,
    sent resp = JsonMovie m ∧
    rows (db w') !! Movie.id m = Some m ∧
    assigned_ids (log w') = (assigned_ids (log w) ++ [Movie.id m])%list ∧
    (Movie.id m ∉ assigned_ids (log w)) ∧
    (∀ k, DbDelete k ∈ log w → Movie.id m ≠ k) ∧
    (∀ k, is_Some (rows (db w) !! k) → Movie.id m ≠ k) ∧
    NoDup (assigned_ids (log w')).
Proof.
  intros [Hle Hnd Hdel Hst]%reachable_accounted Hrun Hstatus.
  apply create_cases in Hrun as (resp' & [= <-] & [(H500 & _)|Hok]); [congruence|].
  destruct Hok as (file & w1 & vs & rowid & m & Hup & Hvs & Hnext & Hm & -> & ->).
  apply single_same_ids in Hup as (Hdb & Hids & _).
  apply next_rowid_above in Hnext. rewrite Hdb in Hnext.
  destruct (written_columns _ _ _ _ _ _ _ Hvs Hm) as (Hid & _).
  assert (rowid ∉ assigned_ids (log w)) as Hfresh.
  { intros Hk%Hle. lia. }
  exists m. rewrite Hid. simpl. rewrite assigned_ids_snoc, Hids.
  split; [done|]. split; [apply lookup_insert_eq|]. split; [done|]. split; [done|].
  split; [intros k Hk ->; by apply Hfresh, Hdel|].
  split; [intros k Hk ->; by apply Hfresh, Hst|].
  apply NoDup_app. split; [done|]. split; [|apply NoDup_singleton].
  by intros k Hk ->%list_elem_of_singleton.
Qed.

Lemma created_id_never_reused_witness :
  ∃ m : Movie.t,
    (App.create Sample.later (Sample.form "" "Second film" None) Sample.emptied).1
      = Return {| status := 201; sent := JsonMovie m |} ∧
    log Sample.emptied = [FsWrite Sample.stored_png; DbInsert 1;
                          FsUnlink Sample.stored_png; DbDelete 1] ∧
    Movie.id m = 2 ∧ Movie.id m ≠ 1.
Proof.
  assert (App.reachable Sample.emptied) as Hreach.
  { unfold Sample.emptied, Sample.one_movie.
    do 2 apply App.reachable_serve. apply App.reachable_installed. }
  destruct (App.create Sample.later (Sample.form "" "Second film" None) Sample.emptied)
    as [o w'] eqn:Hrun.
  assert (∃ resp, o = Return resp ∧ status resp = 201 ∧
                  ∃ m0, sent resp = JsonMovie m0 ∧ Movie.id m0 = 2)
    as (resp & -> & Hstatus & m0 & Hm0 & Hid).
  { vm_compute in Hrun. injection Hrun as <- _.
    eexists; split; [reflexivity|]. split; [reflexivity|].
    eexists; split; reflexivity. }
  destruct (created_id_never_reused _ _ _ _ _ Hreach Hrun Hstatus)
    as (m & Hsent & _ & _ & _ & Hdeleted & _).
  assert (m = m0) as -> by congruence.
  exists m0. simpl. destruct resp as [code body]; simpl in *. subst code body.
  split; [done|]. split; [by vm_compute|]. split; [done|].
  apply Hdeleted. vm_compute. repeat constructor.
Defined.

(** ** The embed URL of a trailer *)
Section embed.

Lemma strip_prefix_Some (p s r : string) : Client.strip_prefix p s = Some r ↔ s = p ++ r.
Proof.
  revert s. induction p as [|a p IH]; intros s; simpl.
  - split; [by intros [= ->]|by intros ->].
  - destruct s as [|b s]; [done|].
    destruct (Ascii.eqb_spec a b) as [->|Hne].
    + rewrite IH. split; [by intros ->|by intros [= ->]].
    + split; [done|]. intros [= -> _]. done.
Qed.

Lemma until_amp_split (s : string) : ∃ rest, s = Client.until_amp s ++ rest ∧ ends_id rest.
Proof.
  induction s as [|c s (rest & Hs & Hrest)]; simpl.
  - exists "". split; [done|by left].
  - destruct (Ascii.eqb_spec c "&") as [->|Hc].
    + exists (String "&" s). split; [done|]. right. by eexists.
    + exists rest. split; [|done]. exact (f_equal (String c) Hs).
Qed.

Lemma until_amp_no_amp (s : string) : no_amp (Client.until_amp s).
Proof.
  induction s as [|c s IH]; intros a b; simpl.
  - by destruct a.
  - destruct (Ascii.eqb_spec c "&") as [->|Hc]; [by destruct a|].
    destruct a as [|c' a]; simpl; [by intros [= -> _]|].
    intros [= -> H]. by eapply IH.
Qed.

Lemma until_amp_app (id rest : string) :
  no_amp id → ends_id rest → Client.until_amp (id ++ rest) = id.
Proof.
  intros Hid Hrest. induction id as [|c id IH]; simpl.
  - by destruct Hrest as [->|[r ->]].
  - destruct (Ascii.eqb_spec c "&") as [->|Hc].
    + by destruct (Hid "" id).
    + f_equal. apply IH. intros a b ->. by apply (Hid (String c a) b).
Qed.

Lemma group1_Some (s g : string) :
  Client.group1 s = Some g →
  g ≠ "" ∧ no_amp g ∧ ∃ rest, s = g ++ rest ∧ ends_id rest.
Proof.
  unfold Client.group1.
  destruct (Client.until_amp s) as [|c g'] eqn:Hg; [done|]. intros [= <-].
  split; [done|]. rewrite <- Hg.
  split; [apply until_amp_no_amp|apply until_amp_split].
Qed.

Lemma group1_app (id rest : string) :
  id ≠ "" → no_amp id → ends_id rest → Client.group1 (id ++ rest) = Some id.
Proof.
  intros Hne Hid Hrest. unfold Client.group1.
  rewrite until_amp_app by done. by destruct id.
Qed.

Lemma match_at_Some (s g : string) : Client.match_at s = Some g → video_at s g.
Proof.
  unfold Client.match_at.
  destruct (Client.strip_prefix "youtube.com/watch?v=" s ≫= Client.group1) as [g'|] eqn:H1.
  - intros [= ->].
    destruct (Client.strip_prefix _ s) as [r|] eqn:Hr; [|done]. simpl in H1.
    apply strip_prefix_Some in Hr as ->.
    apply group1_Some in H1 as (? & ? & rest & -> & ?).
    exists "youtube.com/watch?v=", rest. by repeat split; [left|..].
  - intros H2.
    destruct (Client.strip_prefix "youtu.be/" s) as [r|] eqn:Hr; [|done]. simpl in H2.
    apply strip_prefix_Some in Hr as ->.
    apply group1_Some in H2 as (? & ? & rest & -> & ?).
    exists "youtu.be/", rest. by repeat split; [right|..].
Qed.

Lemma match_at_None (s id : string) : Client.match_at s = None → ¬ video_at s id.
Proof.
  intros Hnone (m & rest & [-> | ->] & -> & Hne & Hid & Hrest).
  - unfold Client.match_at in Hnone.
    rewrite (proj2 (strip_prefix_Some "youtube.com/watch?v=" _ (id ++ rest))) in Hnone by done.
    simpl in Hnone. by rewrite group1_app in Hnone.
  - unfold Client.match_at in Hnone.
    change (Client.strip_prefix "youtube.com/watch?v=" ("youtu.be/" ++ id ++ rest))
      with (@None string) in Hnone.
    rewrite (proj2 (strip_prefix_Some "youtu.be/" _ (id ++ rest))) in Hnone by done.
    simpl in Hnone. by rewrite group1_app in Hnone.
Qed.

Lemma match_Some (url g : string) : Client.match_ url = Some g → has_video_id url g.
Proof.
  induction url as [|c url IH]; simpl.
  - by vm_compute.
  - destruct (Client.match_at (String c url)) as [g'|] eqn:Hat.
    + intros [= ->]. apply match_at_Some in Hat as (m & rest & ? & ? & ?).
      by exists "", m, rest.
    + intros (before & m & rest & ? & -> & ?)%IH.
      by exists (String c before), m, rest.
Qed.

Lemma match_None (url id : string) : Client.match_ url = None → ¬ has_video_id url id.
Proof.
  induction url as [|c url IH]; simpl.
  - intros _ (before & m & rest & Hm & Hurl & _).
    destruct before; [|done]. by destruct Hm as [-> | ->].
  - destruct (Client.match_at (String c url)) as [g'|] eqn:Hat; [done|].
    intros Hnone (before & m & rest & Hm & Hurl & Hrest).
    destruct before as [|c' before]; simpl in Hurl.
    + eapply match_at_None; [exact Hat|]. by exists m, rest.
    + injection Hurl as -> ->. apply IH; [done|]. by exists before, m, rest.
Qed.

(** The two customary spellings: the identifier returned is the one that
    follows the marker. *)
Lemma getEmbedUrl_watch (id rest : string) :
  id ≠ "" → no_amp id → ends_id rest →
  Client.getEmbedUrl ("https://www.youtube.com/watch?v=" ++ id ++ rest) = embed_url id.
Proof.
  intros Hne Hid Hrest. unfold Client.getEmbedUrl.
  assert (Client.match_ ("https://www.youtube.com/watch?v=" ++ id ++ rest) = Some id) as ->.
  { pose proof (group1_app id rest Hne Hid Hrest) as Hg.
    remember (id ++ rest) as x. cbv -[Client.group1]. by rewrite Hg. }
  by destruct (String.eqb_spec id "").
Qed.

Lemma getEmbedUrl_short (id rest : string) :
  id ≠ "" → no_amp id → ends_id rest →
  Client.getEmbedUrl ("https://youtu.be/" ++ id ++ rest) = embed_url id.
Proof.
  intros Hne Hid Hrest. unfold Client.getEmbedUrl.
  assert (Client.match_ ("https://youtu.be/" ++ id ++ rest) = Some id) as ->.
  { pose proof (group1_app id rest Hne Hid Hrest) as Hg.
    remember (id ++ rest) as x. cbv -[Client.group1]. by rewrite Hg. }
  by destruct (String.eqb_spec id "").
Qed.

End embed.

(** C9.  For every URL: when it carries a video identifier in one of
    the two shapes (a watch URL, [youtube.com/watch?v=ID], or a short link,
    [youtu.be/ID]), [getEmbedUrl] returns the YouTube embed URL of an
    identifier the URL carries; when it has neither shape, [getEmbedUrl]
    returns the URL unchanged. *)
Theorem getEmbedUrl_embeds_or_passes (url : string) :
  (∃ id, has_video_id url id ∧ Client.getEmbedUrl url = embed_url id) ∨
  ((∀ id, ¬ has_video_id url id) ∧ Client.getEmbedUrl url = url).
Proof.
  unfold Client.getEmbedUrl.
  destruct (Client.match_ url) as [g|] eqn:Hm.
  - left. exists g. apply match_Some in Hm as Hg. split; [done|].
    destruct Hg as (_ & _ & _ & _ & _ & Hne & _).
    by destruct (String.eqb_spec g "").
  - right. split; [|done]. intros id. by apply match_None.
Qed.

(** * Further properties of the server *)

(** ** Decimal ids in the URL *)
Section decimal_ids.

Lemma pretty_N_char_digit (d : N) :
  (d < 10)%N → Sqlite.digit_of (pretty_N_char d) = Some (Z.of_N d).
Proof.
  intros Hd.
  assert (d = 0 ∨ d = 1 ∨ d = 2 ∨ d = 3 ∨ d = 4 ∨ d = 5 ∨ d = 6 ∨ d = 7 ∨ d = 8 ∨ d = 9)%N
    as Hcases by lia.
  repeat (destruct Hcases as [->|Hcases]; [reflexivity|]). by subst.
Qed.

(** Reading the digits that [pretty] wrote gives the number back. *)
Lemma digits_pretty_N_go (x : N) (s : string) :
  ∃ p, ∀ acc, Sqlite.digits acc (pretty_N_go x s) = Sqlite.digits (acc * p + Z.of_N x) s.
Proof.
  revert s. induction (N.lt_wf_0 x) as [x _ IH]; intros s.
  destruct (decide (x = 0)%N) as [->|Hx].
  { exists 1. intros acc. rewrite pretty_N_go_0. f_equal. lia. }
  rewrite pretty_N_go_step by lia.
  destruct (IH (x `div` 10)%N) with (s := String (pretty_N_char (x `mod` 10)) s)
    as [p Hp]; [apply N.div_lt; lia|].
  exists (10 * p). intros acc. rewrite Hp. simpl.
  rewrite pretty_N_char_digit by (apply N.mod_lt; lia).
  f_equal. pose proof (N.div_mod x 10). lia.
Qed.

Lemma pretty_N_go_head (x : N) (s : string) :
  (0 < x)%N → ∃ d rest, (d < 10)%N ∧ pretty_N_go x s = String (pretty_N_char d) rest.
Proof.
  revert s. induction (N.lt_wf_0 x) as [x _ IH]; intros s Hx.
  rewrite pretty_N_go_step by done.
  destruct (decide (x `div` 10 = 0)%N) as [->|Hq].
  - rewrite pretty_N_go_0. eexists _, _. split; [|done]. apply N.mod_lt. lia.
  - apply IH; [apply N.div_lt; lia|by apply N.neq_0_lt_0].
Qed.

Lemma parse_int_digit_head (c : ascii) (rest : string) :
  is_Some (Sqlite.digit_of c) →
  Sqlite.parse_int (String c rest) =
  Sqlite.digits 0 (String c rest) ≫= λ n,
    if (Sqlite.int64_min <=? n) && (n <=? Sqlite.int64_max) then Some n else None.
Proof.
  intros [d Hd].
  destruct c as [[] [] [] [] [] [] [] []]; try discriminate Hd; reflexivity.
Qed.

Lemma parse_int_pretty (k : Z) :
  1 ≤ k ≤ Sqlite.int64_max → Sqlite.parse_int (pretty k) = Some k.
Proof.
  intros Hk. destruct k as [|q|q]; [lia| |lia].
  unfold pretty, pretty_Z, pretty, pretty_positive, pretty, pretty_N.
  case_decide; [done|].
  destruct (digits_pretty_N_go (N.pos q) "") as [p Hp].
  destruct (pretty_N_go_head (N.pos q) "") as (d & rest & Hd & Hhead); [lia|].
  specialize (Hp 0). rewrite Hhead in Hp |- *.
  rewrite parse_int_digit_head by (rewrite pretty_N_char_digit by done; eauto).
  rewrite Hp. replace (0 * p + Z.of_N (N.pos q)) with (Z.pos q) by lia. simpl.
  assert (Sqlite.int64_min ≤ Z.pos q) by (unfold Sqlite.int64_min; lia).
  destruct (Z.leb_spec Sqlite.int64_min (Z.pos q)); [|lia].
  destruct (Z.leb_spec (Z.pos q) Sqlite.int64_max); [done|lia].
Qed.

Lemma rowid_of_pretty (k : Z) :
  1 ≤ k ≤ Sqlite.int64_max → Db.rowid_of (SText (pretty k)) = Some k.
Proof. intros Hk. unfold Db.rowid_of. simpl. by rewrite parse_int_pretty. Qed.

End decimal_ids.

(** ** Create, read and delete together *)
Section crud.

Lemma max_rowid_ge (t : gmap Z Movie.t) (k : Z) (m : Movie.t) :
  t !! k = Some m → k ≤ Db.max_rowid t.
Proof.
  intros Hk%elem_of_map_to_list. unfold Db.max_rowid.
  induction (map_to_list t) as [|[k' m'] l IH]; [by apply elem_of_nil in Hk|].
  simpl. apply elem_of_cons in Hk as [[= <- <-]|Hk]; [apply Z.le_max_l|].
  etrans; [by apply IH|apply Z.le_max_r].
Qed.

Lemma max_rowid_nonneg (t : gmap Z Movie.t) : 0 ≤ Db.max_rowid t.
Proof.
  unfold Db.max_rowid. induction (map_to_list t) as [|[k' m'] l IH]; simpl; [done|].
  etrans; [exact IH|apply Z.le_max_r].
Qed.

Lemma next_rowid_fresh (d : database) (k : Z) :
  Db.next_rowid d = Some k →
  1 ≤ k ≤ Sqlite.int64_max ∧ rows d !! k = None ∧ sqlite_sequence d < k.
Proof.
  unfold Db.next_rowid.
  destruct (Z.ltb_spec (Z.max (Db.max_rowid (rows d)) (sqlite_sequence d))
              Sqlite.int64_max) as [Hlt|]; [|done].
  intros [= <-]. pose proof (max_rowid_nonneg (rows d)).
  split; [lia|]. split; [|lia].
  destruct (rows d !! _) as [m|] eqn:Hm; [|done].
  apply max_rowid_ge in Hm. lia.
Qed.

Lemma run_get_movie (req : request) (w : world) :
  Handler.get_movie req w =
  (Return match Db.rowid_of (SText (params_id req)) ≫= λ k, rows (db w) !! k with
          | Some m => {| status := 200; sent := JsonMovie m |}
          | None => {| status := 404; sent := JsonError "Movie not found" |}
          end, w).
Proof.
  unfold Handler.get_movie, try_catch. rewrite run_bind, run_get_by_id.
  by destruct (Db.rowid_of _ ≫= _).
Qed.

Lemma delete_cases (req : request) (w w' : world) (o : outcome response) :
  Handler.delete_movie req w = (o, w') →
  ((Db.rowid_of (SText (params_id req)) ≫= λ k, rows (db w) !! k) = None ∧
   o = Return {| status := 404; sent := JsonError "Movie not found" |} ∧ w' = w) ∨
  ∃ k old, Db.rowid_of (SText (params_id req)) = Some k ∧ rows (db w) !! k = Some old.
Proof.
  destruct (Db.rowid_of (SText (params_id req))) as [k|] eqn:Hk; simpl.
  - destruct (rows (db w) !! k) as [old|] eqn:Hold; [by right; eauto|].
    unfold Handler.delete_movie, try_catch. rewrite run_bind, run_get_by_id, Hk.
    simpl. rewrite Hold. intros [= <- <-]. by left.
  - unfold Handler.delete_movie, try_catch. rewrite run_bind, run_get_by_id, Hk.
    simpl. intros [= <- <-]. by left.
Qed.

End crud.

(** X1.  A record can be read back: when a create answers 201 with a
    row, GET /api/movies/:id with the decimal id of that row answers 200
    with the same row, and reads only. *)
Theorem get_after_create (e : env) (req : request) (w w' : world) (resp : response) :
  App.create e req w = (Return resp, w') →
  status resp = 201 →
  ∃ m : Movie.t,
    sent resp = JsonMovie m ∧
    ∀ req', params_id req' = pretty (Movie.id m) →
      Handler.get_movie req' w' = (Return {| status := 200; sent := JsonMovie m |}, w').
Proof.
  intros Hrun Hstatus.
  apply create_cases in Hrun as (resp' & [= <-] & [(H500 & _)|Hok]); [congruence|].
  destruct Hok as (file & w1 & vs & rowid & m & _ & Hvs & Hnext & Hm & -> & ->).
  destruct (written_columns _ _ _ _ _ _ _ Hvs Hm) as (Hid & _).
  apply next_rowid_fresh in Hnext as (Hrange & _).
  exists m. split; [done|]. intros req' Hreq'.
  rewrite run_get_movie, Hreq', Hid, rowid_of_pretty by done.
  simpl. by rewrite lookup_insert_eq.
Qed.

Lemma get_after_create_witness :
  ∃ m : Movie.t,
    Movie.title m = "Test Film" ∧
    Handler.get_movie (Sample.form "1" "" None) (Sample.one_movie ∅)
      = (Return {| status := 200; sent := JsonMovie m |}, Sample.one_movie ∅).
Proof.
  destruct (App.create Sample.clock (Sample.form "" "Test Film" (Some Sample.png))
              (App.installed ∅ ∅)) as [o w'] eqn:Hrun.
  assert (∃ resp, o = Return resp ∧ status resp = 201 ∧ w' = Sample.one_movie ∅ ∧
                  ∃ m0, sent resp = JsonMovie m0 ∧ Movie.id m0 = 1 ∧
                        Movie.title m0 = "Test Film")
    as (resp & -> & Hstatus & -> & m0 & Hm0 & Hid & Htitle).
  { vm_compute in Hrun. injection Hrun as <- <-.
    eexists; split; [reflexivity|]. split; [reflexivity|]. split; [by vm_compute|].
    eexists; split; [reflexivity|]. split; reflexivity. }
  destruct (get_after_create _ _ _ _ _ Hrun Hstatus) as (m & Hsent & Hget).
  assert (m = m0) as -> by congruence.
  exists m0. split; [done|]. apply Hget. by rewrite Hid.
Defined.

(** X2.  A deleted record is gone: after a delete that answers 200, a GET
    and a second DELETE for the same id both answer 404 and change
    nothing. *)
Theorem delete_then_not_found (req : request) (w w' : world) (resp : response) :
  Handler.delete_movie req w = (Return resp, w') →
  status resp = 200 →
  Handler.get_movie req w'
    = (Return {| status := 404; sent := JsonError "Movie not found" |}, w') ∧
  Handler.delete_movie req w'
    = (Return {| status := 404; sent := JsonError "Movie not found" |}, w').
Proof.
  intros Hrun Hstatus.
  destruct (delete_cases _ _ _ _ Hrun) as [(_ & [= ->] & _)|(k & old & Hk & Hold)]; [done|].
  rewrite (delete_existing req w k old Hk Hold) in Hrun. cbv zeta in Hrun.
  assert (rows (db w') !! k = None) as Hgone.
  { repeat case_match; simplify_eq; simpl in *; try done; apply lookup_delete_eq. }
  split.
  - rewrite run_get_movie, Hk. simpl. by rewrite Hgone.
  - unfold Handler.delete_movie, try_catch. rewrite run_bind, run_get_by_id, Hk.
    simpl. by rewrite Hgone.
Qed.

Lemma delete_then_not_found_witness :
  Handler.get_movie (Sample.form "1" "" None) Sample.emptied
    = (Return {| status := 404; sent := JsonError "Movie not found" |}, Sample.emptied) ∧
  Handler.delete_movie (Sample.form "1" "" None) Sample.emptied
    = (Return {| status := 404; sent := JsonError "Movie not found" |}, Sample.emptied).
Proof.
  apply (delete_then_not_found (Sample.form "1" "" None) (Sample.one_movie ∅) Sample.emptied
           {| status := 200; sent := JsonMessage "Movie deleted successfully" |});
    [by vm_compute|reflexivity].
Defined.

(** X3.  What a delete that answers 200 does to the disk: a record
    without a local poster is deleted without any filesystem call (the only
    effect is the DELETE), and a record with a local poster loses exactly
    that file; the other rows stay as they are. *)
Theorem delete_removes_only_its_poster (req : request) (w w' : world)
    (resp : response) (k : Z) (old : Movie.t) :
  Db.rowid_of (SText (params_id req)) = Some k →
  rows (db w) !! k = Some old →
  Handler.delete_movie req w = (Return resp, w') →
  status resp = 200 →
  rows (db w') = delete k (rows (db w)) ∧
  (Movie.poster_local old = None →
     files w' = files w ∧ log w' = (log w ++ [DbDelete k])%list) ∧
  (∀ p, Movie.poster_local old = Some p → p ≠ "" → files w' = files w ∖ {[p]}).
Proof.
  intros Hk Hold Hrun Hstatus.
  rewrite (delete_existing req w k old Hk Hold) in Hrun. cbv zeta in Hrun.
  destruct (Movie.poster_local old) as [p|] eqn:Hlocal; simpl in Hrun.
  - destruct (String.eqb_spec p "") as [->|Hp]; simpl in Hrun.
    + injection Hrun as <- <-. simpl. split; [done|]. split; [done|].
      by intros ? [= <-] ?.
    + case_bool_decide as Hfile; simpl in Hrun.
      * case_bool_decide; simplify_eq/=.
        split; [done|]. split; [done|]. by intros ? [= <-] _.
      * injection Hrun as <- <-. simpl. split; [done|]. split; [done|].
        intros ? [= <-] _. apply leibniz_equiv. intros x.
        rewrite elem_of_difference, elem_of_singleton.
        split; [intros Hx; split; [done|]; by intros ->|by intros [? _]].
  - injection Hrun as <- <-. simpl. split; [done|]. split; [done|]. by intros ? [=].
Qed.

Lemma delete_removes_only_its_poster_witness :
  rows (db Sample.emptied) = delete 1 (rows (db (Sample.one_movie ∅))) ∧
  files Sample.emptied = files (Sample.one_movie ∅) ∖ {[Sample.stored_png]}.
Proof.
  assert (∃ old, rows (db (Sample.one_movie ∅)) !! 1 = Some old ∧
                 Movie.poster_local old = Some Sample.stored_png) as (old & Hold & Hlocal).
  { eexists. split; [vm_compute; reflexivity|reflexivity]. }
  destruct (delete_removes_only_its_poster (Sample.form "1" "" None) (Sample.one_movie ∅)
              Sample.emptied {| status := 200; sent := JsonMessage "Movie deleted successfully" |}
              1 old) as (Hrows & _ & Hfiles);
    [reflexivity|exact Hold|by vm_compute|reflexivity|].
  split; [exact Hrows|]. by apply Hfiles.
Defined.

(** X4.  Create and delete undo each other: when a create with an
    accepted poster answers 201 and the record is then deleted through its
    decimal id, the table holds the rows it held before the create, and the
    uploaded file is off the disk again (provided the file can be
    unlinked). *)
Theorem create_then_delete (e : env) (req del : request) (w w1 : world)
    (resp : response) (f : Multer.file) :
  poster req = Some f →
  Multer.destination_path (Multer.generated_name e f) ∉ undeletable w →
  App.create e req w = (Return resp, w1) →
  status resp = 201 →
  ∃ m : Movie.t,
    sent resp = JsonMovie m ∧
    (params_id del = pretty (Movie.id m) →
     ∃ w2,
       Handler.delete_movie del w1
         = (Return {| status := 200; sent := JsonMessage "Movie deleted successfully" |}, w2) ∧
       rows (db w2) = rows (db w) ∧
       files w2 = files w ∖ {[Multer.destination_path (Multer.generated_name e f)]}).
Proof.
  intros Hf Hlocked Hrun Hstatus.
  apply create_cases in Hrun as (resp' & [= <-] & [(H500 & _)|Hok]); [congruence|].
  destruct Hok as (file & w0 & vs & rowid & m & Hup & Hvs & Hnext & Hm & -> & ->).
  rewrite Hf in Hup. apply single_stored in Hup as (-> & _ & _ & ->).
  destruct (written_columns _ _ _ _ _ _ _ Hvs Hm) as (Hid & _ & _ & _ & Hpl & _).
  apply stored_text_path in Hpl.
  apply next_rowid_fresh in Hnext as (Hrange & Hfresh & _). simpl in Hfresh.
  exists m. split; [done|]. intros Hdel.
  set (p := Multer.destination_path (Multer.generated_name e f)) in *.
  eexists. rewrite (delete_existing del _ rowid m);
    [|by rewrite Hdel, Hid, rowid_of_pretty|by simpl; rewrite lookup_insert_eq].
  cbv zeta. rewrite Hpl. simpl.
  change (poster_path {| Multer.filename := Multer.generated_name e f |}) with p.
  assert (p ≠ "") as Hp by done.
  destruct (String.eqb_spec p ""); [done|]. simpl.
  rewrite bool_decide_eq_true_2 by (apply elem_of_union; left; by apply elem_of_singleton).
  rewrite bool_decide_eq_false_2 by done.
  split; [reflexivity|]. simpl. split.
  - rewrite delete_insert_eq. by apply delete_id.
  - apply leibniz_equiv. intros x.
    rewrite !elem_of_difference, elem_of_union. tauto.
Qed.

Lemma create_then_delete_witness :
  ∃ w2,
    Handler.delete_movie (Sample.form "1" "" None) (Sample.one_movie ∅)
      = (Return {| status := 200; sent := JsonMessage "Movie deleted successfully" |}, w2) ∧
    rows (db w2) = ∅ ∧ files w2 = ∅ ∖ {[Sample.stored_png]}.
Proof.
  destruct (App.create Sample.clock (Sample.form "" "Test Film" (Some Sample.png))
              (App.installed ∅ ∅)) as [o w1] eqn:Hrun.
  assert (∃ resp, o = Return resp ∧ status resp = 201 ∧ w1 = Sample.one_movie ∅ ∧
                  ∃ m0, sent resp = JsonMovie m0 ∧ Movie.id m0 = 1)
    as (resp & -> & Hstatus & -> & m0 & Hm0 & Hid).
  { vm_compute in Hrun. injection Hrun as <- <-.
    eexists; split; [reflexivity|]. split; [reflexivity|]. split; [by vm_compute|].
    eexists; split; reflexivity. }
  destruct (create_then_delete Sample.clock (Sample.form "" "Test Film" (Some Sample.png))
              (Sample.form "1" "" None) _ _ _ Sample.png
              eq_refl (not_elem_of_empty _) Hrun Hstatus) as (m & Hsent & Hdel).
  assert (m = m0) as -> by congruence.
  apply Hdel. by rewrite Hid.
Defined.

(** ** Update and create: the remaining paths *)



(** X6.  A file the filter rejects stops the request before the handler:
    create and update answer with the 500 error page and the world is as it
    was, so no record is written and no file is stored. *)
Theorem rejected_upload_leaves_world (e : env) (req : request) (w : world)
    (f : Multer.file) :
  poster req = Some f →
  Multer.fileFilter f = false →
  App.create e req w
    = (Return {| status := 500; sent := ErrorPage "Only image files are allowed" |}, w) ∧
  App.update e req w
    = (Return {| status := 500; sent := ErrorPage "Only image files are allowed" |}, w).
Proof. intros Hf Hfilter. split; by apply rejected_upload_changes_nothing with f. Qed.

Lemma rejected_upload_leaves_world_witness :
  App.create Sample.clock
    (Sample.form "" "Test Film"
       (Some {| Multer.originalname := "notes.txt"; Multer.mimetype := "text/plain";
                Multer.size := 10 |}))
    (App.installed ∅ ∅)
  = (Return {| status := 500; sent := ErrorPage "Only image files are allowed" |},
     App.installed ∅ ∅).
Proof.
  apply (rejected_upload_leaves_world Sample.clock
           (Sample.form "" "Test Film"
              (Some {| Multer.originalname := "notes.txt"; Multer.mimetype := "text/plain";
                       Multer.size := 10 |}))
           (App.installed ∅ ∅) _ eq_refl eq_refl).
Defined.

(** X7.  A create that sends only a title, whatever string it is (the
    empty string included), succeeds as long as the table can still give out
    a rowid: it answers 201 with a row that has this title, the next rowid,
    both timestamps at the current time and every other column NULL. *)
Theorem create_with_title_only (e : env) (id title : string) (w : world) (k : Z) :
  Db.next_rowid (db w) = Some k →
  let m := {| Movie.id := k; Movie.title := title; Movie.year := SNull;
              Movie.poster_url := None; Movie.poster_local := None;
              Movie.dop := None; Movie.bobo_crew := None; Movie.imdb_url := None;
              Movie.tmdb_url := None; Movie.trailer_url := None;
              Movie.production_company := None; Movie.synopsis := None;
              Movie.created_at := current_timestamp e;
              Movie.updated_at := current_timestamp e |} in
  App.create e (Sample.form id title None) w
    = (Return {| status := 201; sent := JsonMovie m |},
       logged (DbInsert k)
         (with_db {| rows := <[k := m]> (rows (db w)); sqlite_sequence := k |} w)).
Proof.
  intros Hnext m.
  unfold App.create, App.with_upload, try_catch. rewrite run_bind. simpl.
  unfold Handler.post_movie, try_catch. rewrite run_bind, run_insert_eq. simpl.
  rewrite Hnext. rewrite run_bind, run_get_by_rowid. simpl.
  by rewrite lookup_insert_eq.
Qed.

Lemma create_with_title_only_witness :
  ∃ m w',
    App.create Sample.clock (Sample.form "" "" None) (App.installed ∅ ∅)
      = (Return {| status := 201; sent := JsonMovie m |}, w') ∧
    Movie.id m = 1 ∧ Movie.title m = "" ∧ Movie.year m = SNull.
Proof.
  eexists _, _. split;
    [apply (create_with_title_only Sample.clock "" "" (App.installed ∅ ∅) 1); reflexivity|].
  done.
Defined.

Section kept.



End kept.



(** X9.  An update that succeeds keeps the identity of the record: the
    row it writes has the same id and the same [created_at] as before, its
    [updated_at] is the current timestamp, every other row and the
    AUTOINCREMENT counter are untouched. *)
Theorem update_keeps_identity (e : env) (req : request) (w w' : world)
    (resp : response) :
  App.update e req w = (Return resp, w') →
  status resp = 200 →
  ∃ (k : Z) (old m : Movie.t),
    Db.rowid_of (SText (params_id req)) = Some k ∧
    rows (db w) !! k = Some old ∧
    rows (db w') !! k = Some m ∧
    sent resp = JsonMovie m ∧
    Movie.id m = k ∧
    Movie.created_at m = Movie.created_at old ∧
    Movie.updated_at m = current_timestamp e ∧
    (∀ k', k' ≠ k → rows (db w') !! k' = rows (db w) !! k') ∧
    sqlite_sequence (db w') = sqlite_sequence (db w).
Proof.
  intros Hrun Hstatus.
  apply update_cases in Hrun as (resp' & [= <-] & Hcases).
  destruct Hcases as [(H500 & _)|[(H404 & _)|Hok]]; [congruence..|].
  destruct Hok as (file & w1 & k & old & vs & m & _ & Hk & Hold & Hvs & Hm & -> & ->).
  destruct (written_columns _ _ _ _ _ _ _ Hvs Hm) as (Hid & Hrest).
  do 11 destruct Hrest as (_ & Hrest). destruct Hrest as [Hc Hu].
  exists k, old, m. simpl.
  split_and!; try done; [apply lookup_insert_eq|].
  intros k' Hk'. by apply lookup_insert_ne.
Qed.

Lemma update_keeps_identity_witness :
  ∃ m : Movie.t,
    rows (db (App.update Sample.later (Sample.form "1" "New title" None)
                (Sample.one_movie ∅)).2) !! 1 = Some m ∧
    Movie.id m = 1 ∧
    Movie.created_at m = "2024-01-01 00:00:00" ∧
    Movie.updated_at m = "2024-01-01 00:06:00".
Proof.
  destruct (App.update Sample.later (Sample.form "1" "New title" None)
              (Sample.one_movie ∅)) as [o w'] eqn:Hrun.
  assert (∃ resp, o = Return resp ∧ status resp = 200) as (resp & -> & Hstatus).
  { vm_compute in Hrun. injection Hrun as <- _. eexists; split; reflexivity. }
  destruct (update_keeps_identity _ _ _ _ _ Hrun Hstatus)
    as (k & old & m & Hk & Hold & Hm & _ & Hid & Hc & Hu & _).
  assert (k = 1) as -> by (vm_compute in Hk; congruence).
  exists m. simpl. split; [done|]. split; [done|]. split; [|done].
  rewrite Hc. vm_compute in Hold. by injection Hold as <-.
Defined.

(** ** What a running installation keeps *)
Section kept_well.

Lemma kept_fs_write (name : string) (fs : gset string) (w : world) :
  kept_well w → kept_well (logged (FsWrite (Multer.destination_path name)) (with_files fs w)).
Proof.
  intros [Hk Hp Ho]. split; simpl; [done| |].
  - intros k m p Hm Hl. apply elem_of_app. left. by eapply Hp.
  - apply orderly_snoc; [done|]. by exists name.
Qed.

Lemma kept_unlinked (p : string) (w : world) :
  kept_well w → FsWrite p ∈ log w → kept_well (unlinked p w).
Proof.
  intros [Hk Hp Ho] Hw. split; simpl; [done| |].
  - intros k m q Hm Hl. apply elem_of_app. left. by eapply Hp.
  - by apply orderly_snoc.
Qed.

(** A statement that changed the table: the rows it leaves must be keyed
    and their posters written. *)
Lemma kept_db (ev : event) (d : database) (w : world) :
  kept_well w →
  match ev with FsWrite _ | FsUnlink _ => False | _ => True end →
  (∀ k m, rows d !! k = Some m →
     (Movie.id m = k ∧ 1 ≤ k) ∧ ∀ p, Movie.poster_local m = Some p → FsWrite p ∈ log w) →
  kept_well (logged ev (with_db d w)).
Proof.
  intros [Hk Hp Ho] Hev Hrows. split; simpl.
  - intros k m Hm. by apply Hrows.
  - intros k m p Hm Hl. apply elem_of_app. left. by eapply Hrows.
  - apply orderly_snoc; [done|]. by destruct ev.
Qed.

Lemma single_kept (e : env) (upload : option Multer.file) (w w1 : world)
    (o : outcome (option Multer.stored)) :
  Multer.single e upload w = (o, w1) →
  kept_well w →
  kept_well w1 ∧ ∀ file, o = Return (Some file) → FsWrite (poster_path file) ∈ log w1.
Proof.
  rewrite run_single. cbv zeta. intros Hrun Hw.
  destruct upload as [f|]; [|by simplify_eq].
  destruct (Multer.fileFilter f); [|by simplify_eq].
  pose proof (kept_fs_write (Multer.generated_name e f)
                ({[Multer.destination_path (Multer.generated_name e f)]} ∪ files w) w Hw) as Hw1.
  destruct (Multer.fileSize <? Multer.size f).
  - split; [|by simplify_eq]. case_bool_decide; simplify_eq; [done|].
    apply kept_unlinked; [done|]. simpl. apply elem_of_app. right. by apply list_elem_of_singleton.
  - simplify_eq. split; [done|]. intros file [= <-]. simpl.
    apply elem_of_app. right. by apply list_elem_of_singleton.
Qed.

Lemma unlink_poster_kept (local : option string) (w w2 : world) (o : outcome unit) :
  when (JS.truthy (Handler.js_of local))
    (present ← Fs.existsSync (Handler.join_dirname (Handler.js_of local));
     when present (Fs.unlinkSync (Handler.join_dirname (Handler.js_of local)))) w = (o, w2) →
  kept_well w → (∀ p, local = Some p → FsWrite p ∈ log w) →
  kept_well w2 ∧ db w2 = db w ∧ ∀ ev, ev ∈ log w → ev ∈ log w2.
Proof.
  rewrite run_unlink_poster. cbv zeta. intros Hrun Hw Hl.
  destruct (JS.truthy _ && bool_decide _) eqn:Hc; [|by simplify_eq].
  case_bool_decide; [by simplify_eq|]. simplify_eq.
  destruct local as [p|]; [|done]. simpl.
  split; [apply kept_unlinked; auto|]. split; [done|].
  intros ev Hev. apply elem_of_app. by left.
Qed.

Lemma create_kept (e : env) (req : request) : preserves kept_well (App.create e req).
Proof.
  intros w o w' Hw.
  unfold App.create, App.with_upload, try_catch. rewrite run_bind.
  destruct (Multer.single e (poster req) w) as [o1 w1] eqn:Hup.
  apply single_kept in Hup as [Hw1 Hfile]; [|done].
  destruct o1 as [file|msg]; [|by intros [= <- <-]].
  unfold Handler.post_movie, try_catch. rewrite run_bind, run_insert_eq.
  fold (local_of file).
  destruct (mapM Db.bindable _) as [vs|] eqn:Hvs; [|by intros [= <- <-]].
  destruct (Db.next_rowid (db w1)) as [rowid|] eqn:Hnext; [|by intros [= <- <-]].
  destruct (Db.stored_row _ _ _ _) as [m|msg] eqn:Hm; [|by intros [= <- <-]].
  rewrite run_bind, run_get_by_rowid. simpl. rewrite lookup_insert_eq.
  intros [= <- <-].
  apply next_rowid_fresh in Hnext as (Hk & _ & _).
  destruct (written_columns _ _ _ _ _ _ _ Hvs Hm) as (Hid & _ & _ & _ & Hpl & _).
  apply kept_db; [done..|]. simpl.
  intros k m' [[<- <-]|[Hne Hm']]%lookup_insert_Some.
  - split; [lia|]. intros p Hp. rewrite Hp in Hpl.
    destruct file as [f|]; simpl in Hpl.
    + apply stored_text_path in Hpl as [= ->]. by apply Hfile.
    + by destruct Hpl as (y & [= <-] & [=]).
  - split; [by eapply rows_keyed|]. intros p Hp. by eapply posters_written.
Qed.

Lemma update_kept (e : env) (req : request) : preserves kept_well (App.update e req).
Proof.
  intros w o w' Hw.
  unfold App.update, App.with_upload, try_catch. rewrite run_bind.
  destruct (Multer.single e (poster req) w) as [o1 w1] eqn:Hup.
  apply single_db in Hup as Hdb.
  apply single_kept in Hup as [Hw1 Hfile]; [|done].
  destruct o1 as [file|msg]; [|by intros [= <- <-]].
  unfold Handler.put_movie, try_catch. rewrite run_bind, run_get_by_id.
  destruct (Db.rowid_of (SText (params_id req))) as [k|] eqn:Hk; simpl;
    [|by intros [= <- <-]].
  destruct (rows (db w1) !! k) as [old|] eqn:Hold; simpl; [|by intros [= <- <-]].
  rewrite run_bind.
  set (existing := Handler.js_of (Movie.poster_local old)).
  assert (∃ o2 w2,
    (match file with
     | Some f =>
         when (JS.truthy existing)
           (present ← Fs.existsSync (Handler.join_dirname existing);
            when present (Fs.unlinkSync (Handler.join_dirname existing)));;
         mret (JStr (poster_path f))
     | None => mret existing
     end) w1 = (o2, w2) ∧ kept_well w2 ∧ db w2 = db w1 ∧
    (∀ ev, ev ∈ log w1 → ev ∈ log w2) ∧
    ((∃ msg, o2 = Throw msg) ∨ o2 = Return (local_kept file old)))
    as (o2 & w2 & -> & Hw2 & Hdb2 & Hlog & Ho2).
  { destruct file as [f|]; simpl; [|by eauto 10].
    rewrite run_bind.
    destruct (when _ _ w1) as [o3 w3] eqn:Hun.
    apply unlink_poster_kept in Hun as (? & ? & ?);
      [|done|intros p Hp; by eapply posters_written].
    destruct o3; eauto 10. }
  destruct Ho2 as [[msg ->]| ->]; [by intros [= <- <-]|].
  rewrite run_bind, run_update_eq.
  destruct (mapM Db.bindable _) as [vs|] eqn:Hvs; [|by intros [= <- <-]].
  rewrite (lookup_pair _ _ k old) by (by rewrite ?Hdb2).
  destruct (Db.stored_row _ _ _ _) as [m|msg] eqn:Hm; [|by intros [= <- <-]].
  rewrite run_bind, run_get_by_id, Hk. simpl. rewrite lookup_insert_eq.
  intros [= <- <-].
  destruct (written_columns _ _ _ _ _ _ _ Hvs Hm) as (Hid & _ & _ & _ & Hpl & _).
  apply kept_db; [done..|]. simpl.
  intros k' m' [[<- <-]|[Hne Hm']]%lookup_insert_Some.
  - split; [split; [done|]; rewrite <-Hdb2 in Hold; by eapply rows_keyed|].
    intros p Hp. rewrite Hp in Hpl. destruct file as [f|]; simpl in Hpl.
    + apply stored_text_path in Hpl as [= ->]. by apply Hlog, Hfile.
    + apply stored_text_js_of in Hpl. apply Hlog. by eapply posters_written.
  - split; [by eapply rows_keyed|]. intros p Hp. by eapply posters_written.
Qed.

Lemma delete_kept (req : request) : preserves kept_well (Handler.delete_movie req).
Proof.
  intros w o w' Hw Hrun.
  destruct (delete_cases _ _ _ _ Hrun) as [(_ & _ & ->)|(k & old & Hk & Hold)]; [done|].
  rewrite (delete_existing _ _ k old Hk Hold) in Hrun. cbv beta zeta in Hrun.
  assert (∀ w1, kept_well w1 → (∀ ev, ev ∈ log w → ev ∈ log w1) → db w1 = db w →
            kept_well (logged (DbDelete k)
              (with_db {| rows := delete k (rows (db w));
                          sqlite_sequence := sqlite_sequence (db w) |} w1))) as Hdel.
  { intros w1 Hw1 Hlog Hdb. apply kept_db; [done..|]. simpl.
    intros k' m' [Hne Hm']%lookup_delete_Some.
    split; [exact (rows_keyed _ Hw _ _ Hm')|].
    intros p Hp. apply Hlog. exact (posters_written _ Hw _ _ _ Hm' Hp). }
  revert Hrun.
  destruct (JS.truthy _ && bool_decide _) eqn:Hc; [|intros [= <- <-]; by apply Hdel].
  destruct (bool_decide (_ ∈ undeletable w)); intros [= <- <-]; [done|].
  destruct (Movie.poster_local old) as [p|] eqn:Hp; [|done]. simpl.
  apply Hdel; [|intros ev Hev; apply elem_of_app; by left|done].
  apply kept_unlinked; [done|]. by eapply posters_written.
Qed.

Lemma insert_seed_kept (e : env)
    (movie : string * Z * string * string * string * string * string) :
  preserves kept_well (App.insert_seed e movie).
Proof.
  destruct movie as [[[[[[title year] poster_url] dop] bobo_crew] trailer_url] company].
  intros w o w' Hw. unfold App.insert_seed. rewrite run_insert_eq. simpl.
  destruct (Db.next_rowid (db w)) as [rowid|] eqn:Hnext; [|by intros [= <- <-]].
  intros [= <- <-].
  apply next_rowid_fresh in Hnext as (Hk & _ & _).
  apply kept_db; [done..|]. simpl.
  intros k m' [[<- <-]|[Hne Hm']]%lookup_insert_Some; simpl.
  - split; [lia|done].
  - split; [by eapply rows_keyed|]. intros p Hp. by eapply posters_written.
Qed.

Ltac keep :=
  repeat first
    [ apply preserves_ret | apply preserves_throw
    | apply create_kept | apply update_kept | apply delete_kept
    | apply insert_seed_kept
    | apply preserves_read; solve [eauto using get_by_id_reads | by intros ??? [= <- <-]]
    | apply preserves_try_catch | apply preserves_bind | apply preserves_when
    | apply preserves_fmap | apply preserves_mapM
    | match goal with |- ∀ _, _ => intros ? end
    | progress cbv zeta
    | match goal with |- preserves _ (match ?x with _ => _ end) => destruct x end ].

Lemma serve_kept (e : env) (c : App.call) : preserves kept_well (App.serve e c).
Proof.
  destruct c as [|req|req|req|req|]; simpl.
  - unfold Handler.get_movies, Db.all_ordered, json. keep.
  - unfold Handler.get_movie, json. keep.
  - keep.
  - keep.
  - keep.
  - unfold App.startup, Db.count. keep.
Qed.

Lemma installed_kept (fs locked : gset string) : kept_well (App.installed fs locked).
Proof.
  split; simpl; [intros k m|intros k m p|apply orderly_nil];
    rewrite lookup_empty; by intros [=].
Qed.

Lemma reachable_kept (w : world) : App.reachable w → kept_well w.
Proof.
  induction 1 as [fs locked|w e c _ IH]; [apply installed_kept|].
  destruct (App.serve e c w) as [o w'] eqn:Hrun.
  by eapply serve_kept.
Qed.

Lemma orderly_written (l : list event) (p : string) :
  orderly l → FsWrite p ∈ l → ∃ name, p = "/uploads/posters/" ++ name.
Proof.
  induction 1 as [|l ev _ IH Hev]; [by intros ?%elem_of_nil|].
  intros [Hl| <-%list_elem_of_singleton]%elem_of_app; [by apply IH|done].
Qed.

Lemma orderly_unlink (l : list event) :
  orderly l → ∀ l1 p l2, l = (l1 ++ FsUnlink p :: l2)%list → FsWrite p ∈ l1.
Proof.
  induction 1 as [|l ev _ IH Hev]; intros l1 p l2 Heq.
  { by destruct l1. }
  destruct l2 as [|x l2 _] using rev_ind.
  - apply app_inj_tail in Heq as [-> ->]. done.
  - change (l1 ++ FsUnlink p :: l2 ++ [x])%list
      with (l1 ++ (FsUnlink p :: l2) ++ [x])%list in Heq.
    rewrite app_assoc in Heq. apply app_inj_tail in Heq as [-> _].
    by eapply IH.
Qed.

End kept_well.

(** X10. In every state a running installation can reach, a stored record
    sits under its own id, the id is positive and at most the AUTOINCREMENT
    counter, and a local poster the record names is a path below
    /uploads/posters/ that the server itself stored a file to. *)
Theorem stored_rows_well_formed (w : world) (k : Z) (m : Movie.t) :
  App.reachable w →
  rows (db w) !! k = Some m →
  Movie.id m = k ∧ 1 ≤ k ≤ sqlite_sequence (db w) ∧
  ∀ p, Movie.poster_local m = Some p →
       (∃ name, p = "/uploads/posters/" ++ name) ∧ FsWrite p ∈ log w.
Proof.
  intros Hr Hm.
  pose proof (reachable_kept _ Hr) as Hk.
  pose proof (reachable_accounted _ Hr) as Ha.
  destruct (rows_keyed _ Hk _ _ Hm) as [Hid Hpos].
  split; [done|]. split.
  - split; [done|]. apply (assigned_le_sequence _ Ha), (stored_assigned _ Ha). by exists m.
  - intros p Hp. pose proof (posters_written _ Hk _ _ _ Hm Hp) as Hw.
    split; [|done]. by eapply orderly_written, Hw; apply log_orderly.
Qed.

Lemma stored_rows_well_formed_witness :
  ∃ m, rows (db (Sample.one_movie ∅)) !! 1 = Some m ∧
       Movie.id m = 1 ∧ Movie.poster_local m = Some Sample.stored_png ∧
       FsWrite Sample.stored_png ∈ log (Sample.one_movie ∅).
Proof.
  assert (App.reachable (Sample.one_movie ∅)) as Hr
    by apply App.reachable_serve, App.reachable_installed.
  destruct (rows (db (Sample.one_movie ∅)) !! 1) as [m|] eqn:Hm;
    [|by vm_compute in Hm].
  destruct (stored_rows_well_formed _ _ _ Hr Hm) as (Hid & _ & Hp).
  exists m. split; [done|]. split; [done|].
  assert (Movie.poster_local m = Some Sample.stored_png) as Hl
    by (vm_compute in Hm; by injection Hm as <-).
  split; [done|]. by apply Hp.
Defined.

(** X11. In every state a running installation can reach, each file the
    server has unlinked is a poster below /uploads/posters/ that the server
    itself had stored before: it removes no other file. *)
Theorem unlinks_only_stored_posters (w : world) (l1 l2 : list event) (p : string) :
  App.reachable w →
  log w = (l1 ++ FsUnlink p :: l2)%list →
  FsWrite p ∈ l1 ∧ ∃ name, p = "/uploads/posters/" ++ name.
Proof.
  intros Hr Hlog.
  pose proof (log_orderly _ (reachable_kept _ Hr)) as Ho.
  pose proof (orderly_unlink _ Ho _ _ _ Hlog) as Hw.
  split; [done|]. apply (orderly_written _ _ Ho). rewrite Hlog.
  apply elem_of_app. by left.
Qed.

Lemma unlinks_only_stored_posters_witness :
  FsWrite Sample.stored_png ∈ [FsWrite Sample.stored_png; DbInsert 1] ∧
  ∃ name, Sample.stored_png = "/uploads/posters/" ++ name.
Proof.
  apply (unlinks_only_stored_posters Sample.emptied
           [FsWrite Sample.stored_png; DbInsert 1] [DbDelete 1]).
  - apply App.reachable_serve, App.reachable_serve, App.reachable_installed.
  - reflexivity.
Defined.

(** ** Seeding at start-up *)
Section seeding.





End seeding.



(** ** The upload filter on the files it is meant for *)
Section allowed_uploads.

Lemma lower_dot (c : ascii) : Ascii.eqb (Multer.lower c) "." = Ascii.eqb c ".".
Proof. by destruct c as [[] [] [] [] [] [] [] []]. Qed.

Lemma from_last_dot_lower (s : string) :
  Multer.from_last_dot (Multer.toLowerCase s) = Multer.toLowerCase <$> Multer.from_last_dot s.
Proof.
  induction s as [|c s IH]; simpl; [done|].
  rewrite IH, lower_dot.
  destruct (Multer.from_last_dot s); simpl; [done|].
  by destruct (Ascii.eqb c ".").
Qed.

(** An extension: a dot followed by characters that are not dots. *)
Lemma from_last_dot_extension (ext r : string) :
  Multer.toLowerCase ext = String "." r → Multer.from_last_dot r = None →
  Multer.from_last_dot ext = Some ext.
Proof.
  destruct ext as [|c ext]; [done|]. simpl. intros [= Hc Hr] Hnone.
  assert (Multer.from_last_dot ext = None) as ->.
  { pose proof (from_last_dot_lower ext) as Hl. rewrite Hr, Hnone in Hl.
    by destruct (Multer.from_last_dot ext). }
  by rewrite <-lower_dot, Hc.
Qed.

Lemma from_last_dot_stem (stem ext : string) :
  Multer.from_last_dot ext = Some ext → Multer.from_last_dot (stem ++ ext) = Some ext.
Proof.
  intros Hext. induction stem as [|c stem IH]; [done|].
  change (String c stem ++ ext) with (String c (stem ++ ext)).
  simpl. by rewrite IH.
Qed.

Lemma extname_stem (stem ext r : string) :
  stem ≠ "" → Multer.toLowerCase ext = String "." r → Multer.from_last_dot r = None →
  r ≠ "" →
  Multer.extname (stem ++ ext) = ext.
Proof.
  intros Hstem Hext Hr Hne.
  pose proof (from_last_dot_extension _ _ Hext Hr) as Hself.
  destruct stem as [|c stem]; [done|].
  change (String c stem ++ ext) with (String c (stem ++ ext)).
  unfold Multer.extname.
  destruct (String.eqb_spec (String c (stem ++ ext)) "..") as [Heq|_].
  - injection Heq as -> Hrest.
    pose proof (from_last_dot_stem stem ext Hself) as Hs. rewrite Hrest in Hs.
    injection Hs as <-. by injection Hext as <-.
  - by rewrite from_last_dot_stem.
Qed.

End allowed_uploads.

(** X13. An image of the allow list is accepted and stored: a file whose
    name is a non-empty stem followed by .jpg, .jpeg, .png or .webp in any
    letter case, sent as image/jpeg, image/png or image/webp and no larger
    than 5 MB, passes the filter and is written below /uploads/posters/
    under the time stamp, the random number and the extension as it was
    sent; nothing else changes. *)
Theorem allowed_upload_is_stored (e : env) (f : Multer.file) (stem ext : string) (w : world) :
  Multer.originalname f = stem ++ ext →
  stem ≠ "" →
  Multer.toLowerCase ext ∈ allowed_extensions →
  Multer.mimetype f ∈ image_types →
  Multer.size f ≤ 5 * 1024 * 1024 →
  let name := (pretty (date_now e) ++ "-" ++ pretty (random_1e9 e)) ++ ext in
  Multer.fileFilter f = true ∧
  Multer.single e (Some f) w
    = (Return (Some {| Multer.filename := name |}),
       logged (FsWrite ("/uploads/posters/" ++ name))
         (with_files ({["/uploads/posters/" ++ name]} ∪ files w) w)).
Proof.
  intros Hname Hstem Hext Hmime Hsize name.
  assert (Multer.extname (Multer.originalname f) = ext) as Hextname.
  { rewrite Hname. unfold allowed_extensions in Hext.
    repeat (apply elem_of_cons in Hext as [Hext|Hext]);
      [by eapply extname_stem..|by apply elem_of_nil in Hext]. }
  assert (Multer.fileFilter f = true) as Hfilter.
  { unfold Multer.fileFilter. rewrite Hextname. cbv zeta.
    apply andb_true_intro. split.
    - unfold allowed_extensions in Hext.
      repeat (apply elem_of_cons in Hext as [->|Hext]);
        [reflexivity..|by apply elem_of_nil in Hext].
    - unfold image_types in Hmime.
      repeat (apply elem_of_cons in Hmime as [->|Hmime]);
        [reflexivity..|by apply elem_of_nil in Hmime]. }
  split; [done|].
  rewrite run_single, Hfilter. cbv zeta.
  destruct (Z.ltb_spec Multer.fileSize (Multer.size f)) as [Hbig|_].
  { unfold Multer.fileSize in Hbig. lia. }
  unfold Multer.generated_name. rewrite Hextname.
  unfold name, Multer.destination_path, Multer.uploadsDir.
  reflexivity.
Qed.

Lemma allowed_upload_is_stored_witness :
  Multer.fileFilter {| Multer.originalname := "Poster.JPG"; Multer.mimetype := "image/jpeg";
                       Multer.size := 204800 |} = true ∧
  Multer.single Sample.clock
    (Some {| Multer.originalname := "Poster.JPG"; Multer.mimetype := "image/jpeg";
             Multer.size := 204800 |}) (App.installed ∅ ∅)
    = (Return (Some {| Multer.filename := "1700000000000-123456789.JPG" |}),
       logged (FsWrite "/uploads/posters/1700000000000-123456789.JPG")
         (with_files ({["/uploads/posters/1700000000000-123456789.JPG"]} ∪ ∅)
            (App.installed ∅ ∅))).
Proof.
  apply (allowed_upload_is_stored Sample.clock
           {| Multer.originalname := "Poster.JPG"; Multer.mimetype := "image/jpeg";
              Multer.size := 204800 |} "Poster" ".JPG" (App.installed ∅ ∅)).
  - reflexivity.
  - discriminate.
  - vm_compute. repeat constructor.
  - vm_compute. repeat constructor.
  - vm_compute. discriminate.
Defined.

(** * Properties of the page *)
Section page.

Implicit Types (s : Page.t) (ev : Page.event) (evs : list Page.event).

Lemma getEmbedUrl_nonempty (url : string) : url ≠ "" → Client.getEmbedUrl url ≠ "".
Proof.
  intros Hne. unfold Client.getEmbedUrl.
  destruct (Client.match_ url) as [g|]; [|done].
  destruct (negb (String.eqb g "")); [|done].
  discriminate.
Qed.

Lemma run_keeps (P : Page.t → Prop) :
  (∀ ev s, P s → P (Page.handle ev s)) → ∀ evs s, P s → P (Page.run evs s).
Proof. intros Hstep evs. induction evs as [|ev evs IH]; simpl; auto. Qed.

Lemma closeAllOverlays_none s : no_panel_open (Page.closeAllOverlays s).
Proof. by intros p (q & -> & _)%list_elem_of_fmap. Qed.

Lemma querySelector_panel_Some (panelId : string) (ps : list Page.panel)
    (i : nat) (p : Page.panel) :
  Page.querySelector_panel panelId ps = Some (i, p) →
  ps !! i = Some p ∧ Page.overlayPanel p = Some panelId.
Proof. by intros (? & ? & _)%list_find_Some. Qed.

(** A scroll changes the mark of the logo button and nothing else of the
    panels. *)
Lemma panel_scroll_panels (i : nat) (scrollTop : Z) s (j : nat) (q' : Page.panel) :
  Page.panels (Page.panel_scroll i scrollTop s) !! j = Some q' →
  ∃ q, Page.panels s !! j = Some q ∧ Page.active q = Page.active q' ∧
       Page.overlayPanel q = Page.overlayPanel q'.
Proof.
  unfold Page.panel_scroll.
  destruct (Page.panels s !! i) as [p|] eqn:Hp; [|by eauto].
  destruct (Page.logo_scrolled p); [|by eauto]. simpl.
  intros [(-> & <- & _)|[_ Hj]]%list_lookup_insert_Some; by eauto.
Qed.

Lemma panel_scroll_active (i : nat) (scrollTop : Z) s (q : Page.panel) :
  q ∈ Page.panels s → Page.active q = true →
  ∃ q', q' ∈ Page.panels (Page.panel_scroll i scrollTop s) ∧ Page.active q' = true.
Proof.
  intros [j Hj]%list_elem_of_lookup_1 Hact. unfold Page.panel_scroll.
  destruct (Page.panels s !! i) as [p|] eqn:Hp; [|by eauto using list_elem_of_lookup_2].
  destruct (Page.logo_scrolled p); [|by eauto using list_elem_of_lookup_2]. simpl.
  destruct (decide (i = j)) as [->|Hne].
  - eexists. split; [apply list_elem_of_insert; by eapply lookup_lt_Some|].
    simpl. congruence.
  - exists q. split; [|done]. apply (list_elem_of_lookup_2 _ j).
    by rewrite list_lookup_insert_ne.
Qed.

Lemma panel_scroll_frame (i : nat) (scrollTop : Z) s :
  let s' := Page.panel_scroll i scrollTop s in
  Page.light_mode s' = Page.light_mode s ∧ Page.overflow s' = Page.overflow s ∧
  Page.header_background s' = Page.header_background s ∧
  Page.nav_links_active s' = Page.nav_links_active s ∧
  Page.modal_active s' = Page.modal_active s ∧ Page.iframe_src s' = Page.iframe_src s ∧
  Page.localStorage_theme s' = Page.localStorage_theme s.
Proof.
  unfold Page.panel_scroll.
  destruct (Page.panels s !! i) as [p|]; [|done].
  by destruct (Page.logo_scrolled p).
Qed.

(** ** The scroll lock *)
Lemma handle_lock ev s : lock_explained s → lock_explained (Page.handle ev s).
Proof.
  intros Hs. destruct ev as [| |trailer| |target|key|panelId| | |i scrollTop|]; simpl.
  - unfold lock_explained, something_open. simpl.
    destruct (Page.nav_links_active s); simpl; [by left|right; by eauto].
  - by left.
  - unfold Page.poster_click. destruct trailer as [url|]; [|done].
    destruct (negb _); [|done]. right. split; [done|]. right. by left.
  - by left.
  - destruct target; [by left|done].
  - unfold Page.keydown. destruct (String.eqb key "Escape"); [by left|done].
  - unfold Page.trigger_click, Page.openOverlay.
    destruct (Page.querySelector_panel _ _) as [[i panel]|] eqn:Hfind; [|by left].
    apply querySelector_panel_Some in Hfind as [Hi _].
    apply lookup_lt_Some in Hi.
    destruct (_ !! panelId); (right; split; [done|]; right; right; eexists;
      split; [by apply list_elem_of_insert|done]).
  - by left.
  - by left.
  - destruct (panel_scroll_frame i scrollTop s) as (_ & Ho & _ & Hn & Hm & _).
    unfold lock_explained, something_open. rewrite Ho, Hn, Hm.
    destruct Hs as [?|[? [?|[?|(q & Hq & Hact)]]]];
      [by left|right; split; [done|]; by left|right; split; [done|]; right; by left|].
    right. split; [done|]. right. right. by eapply panel_scroll_active.
  - unfold Page.themeToggle_click. by destruct (list_find _ _) as [[? ?]|].
Qed.

(** ** The trailer modal *)
Lemma handle_modal ev s : modal_playing s → modal_playing (Page.handle ev s).
Proof.
  intros Hs. destruct ev as [| |trailer| |target|key|panelId| | |i scrollTop|]; simpl.
  - done.
  - done.
  - unfold Page.poster_click. destruct trailer as [url|]; [|done].
    destruct (String.eqb_spec url "") as [|Hne]; [done|]. simpl.
    split; [intros _; by apply getEmbedUrl_nonempty|done].
  - split; [done|]. by intros [].
  - destruct target; [|done]. split; [done|]. by intros [].
  - unfold Page.keydown. destruct (String.eqb key "Escape"); [|done].
    destruct (Page.modal_active s) eqn:Hact; simpl.
    + split; [done|]. by intros [].
    + exact Hs.
  - unfold Page.trigger_click, Page.openOverlay.
    destruct (Page.querySelector_panel _ _) as [[i panel]|]; [|done].
    by destruct (_ !! panelId).
  - done.
  - done.
  - destruct (panel_scroll_frame i scrollTop s) as (_ & _ & _ & _ & Hm & Hsrc & _).
    unfold modal_playing. by rewrite Hm, Hsrc.
  - unfold Page.themeToggle_click. by destruct (list_find _ _) as [[? ?]|].
Qed.

(** ** The open panel and the colour of the header *)
Lemma no_panel_ok s : no_panel_open s → one_panel s ∧ header_matches s.
Proof.
  intros Hnone. split.
  - intros i j p q Hp%list_elem_of_lookup_2 _ Hact. apply Hnone in Hp. congruence.
  - intros p panelId Hp Hact. apply Hnone in Hp. congruence.
Qed.

Lemma known_colour (light : bool) (panelId : string) :
  panelId ∈ known_panels →
  is_Some ((if light then Page.overlayColorsLight else Page.overlayColorsDark) !! panelId).
Proof.
  unfold known_panels. intros Hk.
  repeat (apply elem_of_cons in Hk as [->|Hk]); [..|by apply elem_of_nil in Hk];
    destruct light; vm_compute; eauto.
Qed.

Lemma openOverlay_ok (panelId : string) s :
  no_panel_open s →
  one_panel (Page.openOverlay panelId s) ∧ header_matches (Page.openOverlay panelId s).
Proof.
  intros Hnone. unfold Page.openOverlay.
  destruct (Page.querySelector_panel _ _) as [[i panel]|] eqn:Hfind; [|by apply no_panel_ok].
  apply querySelector_panel_Some in Hfind as [Hi Hid].
  set (opened := {| Page.overlayPanel := Page.overlayPanel panel; Page.active := true;
                    Page.logo_scrolled := (λ _, false) <$> Page.logo_scrolled panel |}).
  assert (∀ j q, <[i := opened]> (Page.panels s) !! j = Some q →
                 Page.active q = true → j = i ∧ q = opened) as Honly.
  { intros j q [(-> & <- & _)|[_ Hq]]%list_lookup_insert_Some Hact; [done|].
    apply list_elem_of_lookup_2, Hnone in Hq. congruence. }
  destruct (Page.getOverlayColors s !! panelId) as [colour|] eqn:Hcolour.
  - split.
    + intros j1 j2 p q Hp Hq Hap Haq.
      destruct (Honly _ _ Hp Hap) as [-> _]. by destruct (Honly _ _ Hq Haq) as [-> _].
    + intros p id [j Hp]%list_elem_of_lookup_1 Hap Hpid _.
      destruct (Honly _ _ Hp Hap) as [_ ->]. simpl in Hpid.
      assert (id = panelId) as -> by congruence. exact Hcolour.
  - split.
    + intros j1 j2 p q Hp Hq Hap Haq.
      destruct (Honly _ _ Hp Hap) as [-> _]. by destruct (Honly _ _ Hq Haq) as [-> _].
    + intros p id [j Hp]%list_elem_of_lookup_1 Hap Hpid Hknown.
      destruct (Honly _ _ Hp Hap) as [_ ->]. simpl in Hpid.
      assert (id = panelId) as -> by congruence.
      destruct (known_colour (Page.light_mode s) panelId Hknown) as [c Hc].
      unfold Page.getOverlayColors in Hcolour. congruence.
Qed.

Lemma panels_frame s s' :
  Page.panels s' = Page.panels s →
  Page.header_background s' = Page.header_background s →
  Page.light_mode s' = Page.light_mode s →
  one_panel s ∧ header_matches s → one_panel s' ∧ header_matches s'.
Proof.
  unfold one_panel, header_matches, Page.getOverlayColors.
  by intros -> -> ->.
Qed.

Lemma themeToggle_click_ok s :
  one_panel s ∧ header_matches s →
  one_panel (Page.themeToggle_click s) ∧ header_matches (Page.themeToggle_click s).
Proof.
  intros [Hone _]. unfold Page.themeToggle_click.
  destruct (list_find _ _) as [[k a]|] eqn:Hfind.
  - apply list_find_Some in Hfind as (Hk & Hact & _). split; [exact Hone|].
    intros p panelId [j Hp]%list_elem_of_lookup_1 Hap Hpid Hknown. simpl in Hp.
    assert (j = k) as -> by (by eapply Hone).
    assert (p = a) as -> by congruence.
    unfold Page.getOverlayColors. simpl. rewrite Hpid.
    unfold known_panels in Hknown.
    repeat (apply elem_of_cons in Hknown as [->|Hknown]);
      [..|by apply elem_of_nil in Hknown];
      destruct (Page.light_mode s); by vm_compute.
  - apply list_find_None in Hfind. split; [exact Hone|].
    intros p panelId Hp Hap. simpl in Hp.
    by apply (proj1 (Forall_forall _ _) Hfind) in Hp.
Qed.

Lemma handle_panels ev s :
  one_panel s ∧ header_matches s →
  one_panel (Page.handle ev s) ∧ header_matches (Page.handle ev s).
Proof.
  intros Hs. destruct ev as [| |trailer| |target|key|panelId| | |i scrollTop|]; simpl.
  - by apply (panels_frame s).
  - by apply (panels_frame s).
  - unfold Page.poster_click. destruct trailer as [url|]; [|done].
    destruct (negb _); [|done]. by apply (panels_frame s).
  - by apply (panels_frame s).
  - destruct target; [|done]. by apply (panels_frame s).
  - unfold Page.keydown. destruct (String.eqb key "Escape"); simpl; [|done].
    apply no_panel_ok, closeAllOverlays_none.
  - apply openOverlay_ok, closeAllOverlays_none.
  - apply no_panel_ok, closeAllOverlays_none.
  - apply no_panel_ok, closeAllOverlays_none.
  - destruct Hs as [Hone Hheader].
    destruct (panel_scroll_frame i scrollTop s) as (Hl & _ & Hh & _).
    split.
    + intros j1 j2 p' q' Hp Hq Hap Haq.
      apply panel_scroll_panels in Hp as (p & Hp & Hp1 & _).
      apply panel_scroll_panels in Hq as (q & Hq & Hq1 & _).
      eapply Hone; [exact Hp|exact Hq|congruence..].
    + intros p' panelId [j Hp]%list_elem_of_lookup_1 Hap Hpid Hknown.
      apply panel_scroll_panels in Hp as (p & Hp & Hp1 & Hp2).
      unfold Page.getOverlayColors. rewrite Hl, Hh.
      apply (Hheader p); [by eapply list_elem_of_lookup_2|congruence..|done].
  - by apply themeToggle_click_ok.
Qed.

(** ** The theme *)
Lemma handle_theme_saved ev s : theme_saved s → theme_saved (Page.handle ev s).
Proof.
  intros Hs. destruct ev as [| |trailer| |target|key|panelId| | |i scrollTop|]; simpl.
  - done.
  - done.
  - unfold Page.poster_click. destruct trailer as [url|]; [|done]. by destruct (negb _).
  - done.
  - by destruct target.
  - unfold Page.keydown. destruct (String.eqb key "Escape"); [|done].
    by destruct (Page.modal_active s).
  - unfold Page.trigger_click, Page.openOverlay.
    destruct (Page.querySelector_panel _ _) as [[i panel]|]; [|done].
    by destruct (_ !! panelId).
  - done.
  - done.
  - destruct (panel_scroll_frame i scrollTop s) as (Hl & _ & _ & _ & _ & _ & Ht).
    unfold theme_saved. by rewrite Hl, Ht.
  - unfold Page.themeToggle_click.
    assert (∀ s', Page.light_mode s' = negb (Page.light_mode s) →
                  Page.localStorage_theme s'
                  = Some (if negb (Page.light_mode s) then "light" else "dark") →
                  theme_saved s') as Hsaved.
    { intros s' Hl Ht. unfold theme_saved. rewrite Hl, Ht.
      by destruct (Page.light_mode s). }
    destruct (list_find _ _) as [[? ?]|]; by apply Hsaved.
Qed.

Lemma reload_theme (served s : Page.t) :
  Page.light_mode served = false → theme_saved s →
  Page.light_mode (Page.reload served s) = Page.light_mode s ∧
  theme_saved (Page.reload served s).
Proof.
  intros Hserved Hs. unfold Page.reload, Page.theme_load. simpl.
  destruct (decide (Page.localStorage_theme s = Some "light")) as [Hlight|Hdark].
  - split; [simpl; symmetry; by apply Hs|]. unfold theme_saved. simpl. by rewrite Hlight.
  - simpl. rewrite Hserved.
    split; [by destruct (Page.light_mode s) eqn:Hl; [destruct Hdark; apply Hs|]|].
    unfold theme_saved. simpl. rewrite Hserved. by split.
Qed.

Lemma loaded_theme_saved (served prev : Page.t) :
  Page.light_mode served = false → theme_saved (Page.reload served prev).
Proof.
  intros Hserved. unfold Page.reload, Page.theme_load. simpl.
  destruct (decide (Page.localStorage_theme prev = Some "light")) as [Hlight|Hdark].
  - unfold theme_saved. simpl. by rewrite Hlight.
  - unfold theme_saved. simpl. rewrite Hserved. by split.
Qed.

End page.

(** X14. The page is never left locked with nothing open: whatever the
    visitor does, when page scrolling is switched off ([overflow] is
    [hidden]) the mobile menu, the trailer modal or an overlay panel is
    open. *)
Theorem scroll_lock_has_a_cause (evs : list Page.event) (s : Page.t) :
  Forall Page.in_model evs →
  lock_explained s →
  lock_explained (Page.run evs s).
Proof. intros _. apply run_keeps. apply handle_lock. Qed.

Lemma scroll_lock_has_a_cause_witness :
  lock_explained
    (Page.run [Page.TriggerClick "work"; Page.PosterClick (Some "https://youtu.be/4dAaLbsQSzI");
               Page.Keydown "Escape"; Page.MenuToggleClick] Sample.page).
Proof.
  apply scroll_lock_has_a_cause.
  - repeat constructor.
  - by left.
Defined.

(** X15. The trailer plays exactly while the modal is open: whatever the
    visitor does, the iframe has a source if and only if the modal is
    active, so that closing the modal always unloads the video. *)
Theorem trailer_loaded_while_open (evs : list Page.event) (s : Page.t) :
  Forall Page.in_model evs →
  modal_playing s →
  modal_playing (Page.run evs s).
Proof. intros _. apply run_keeps. apply handle_modal. Qed.

Lemma trailer_loaded_while_open_witness :
  modal_playing
    (Page.run [Page.PosterClick (Some "https://youtu.be/4dAaLbsQSzI"); Page.TriggerClick "team";
               Page.ModalClick true] Sample.page).
Proof.
  apply trailer_loaded_while_open.
  - repeat constructor.
  - split; [done|]. by intros [].
Defined.

(** X16. From a page with no panel open, whatever the visitor does, at most
    one overlay panel is open, and while one of the panels services, work,
    team and contact is open the header has the colour that the table of
    the current theme gives for it: the colours the theme button sets by
    hand agree with the tables. *)
Theorem open_panel_colours_header (evs : list Page.event) (s : Page.t) :
  Forall Page.in_model evs →
  no_panel_open s →
  one_panel (Page.run evs s) ∧ header_matches (Page.run evs s).
Proof.
  intros _ Hnone.
  apply (run_keeps (λ s, one_panel s ∧ header_matches s)); [apply handle_panels|].
  by apply no_panel_ok.
Qed.

Lemma open_panel_colours_header_witness :
  one_panel
    (Page.run [Page.TriggerClick "services"; Page.ThemeToggleClick;
               Page.TriggerClick "work"; Page.ThemeToggleClick] Sample.page) ∧
  header_matches
    (Page.run [Page.TriggerClick "services"; Page.ThemeToggleClick;
               Page.TriggerClick "work"; Page.ThemeToggleClick] Sample.page).
Proof.
  apply open_panel_colours_header.
  - repeat constructor.
  - by intros p (name & -> & _)%list_elem_of_fmap.
Defined.

(** X17. The theme survives a reload: on a document that is served in
    dark mode, after any visit that started with a load, loading the page
    again gives the mode the visitor left it in. *)
Theorem theme_survives_reload (served prev : Page.t) (evs : list Page.event) :
  Forall Page.in_model evs →
  Page.light_mode served = false →
  Page.light_mode (Page.reload served (Page.run evs (Page.reload served prev)))
  = Page.light_mode (Page.run evs (Page.reload served prev)).
Proof.
  intros _ Hserved. apply reload_theme; [done|].
  apply run_keeps; [apply handle_theme_saved|]. by apply loaded_theme_saved.
Qed.

Lemma theme_survives_reload_witness :
  Page.light_mode
    (Page.reload Sample.page
       (Page.run [Page.ThemeToggleClick; Page.TriggerClick "contact"]
          (Page.reload Sample.page Sample.page)))
  = true.
Proof.
  etrans; [apply theme_survives_reload|reflexivity].
  - repeat constructor.
  - reflexivity.
Defined.

(** * Properties of the slideshows *)
Section slideshow.

Implicit Types (s : Slideshow.t) (imgs : list Slideshow.image).

Lemma deactivated_twice imgs :
  Slideshow.deactivated <$> (Slideshow.deactivated <$> imgs) = Slideshow.deactivated <$> imgs.
Proof. rewrite <-list_fmap_compose. by apply list_fmap_ext. Qed.

(** [showImage] within the images: the image at [index] is the one shown,
    the data of the images stay, the captions take the data of the image. *)
Lemma showImage_shows (index : nat) s (img : Slideshow.image) :
  Slideshow.images s !! index = Some img →
  ∃ s', Slideshow.showImage index s = Some s' ∧
        Slideshow.currentIndex s' = Slideshow.currentIndex s ∧
        (∀ j img', Slideshow.images s' !! j = Some img' →
                   Slideshow.active img' = bool_decide (j = index)) ∧
        Slideshow.deactivated <$> Slideshow.images s'
        = Slideshow.deactivated <$> Slideshow.images s ∧
        Slideshow.titleEl s'
        = Slideshow.caption (Slideshow.titleEl s) (Slideshow.title img) ∧
        Slideshow.yearEl s'
        = Slideshow.caption (Slideshow.yearEl s) (Slideshow.year img).
Proof.
  intros Himg. unfold Slideshow.showImage. cbv zeta.
  rewrite list_lookup_fmap, Himg. simpl.
  eexists. split; [reflexivity|]. simpl.
  split; [done|]. split; [|split; [|done]].
  - intros j img'.
    intros [(-> & <- & _)|[Hne Hj]]%list_lookup_insert_Some; simpl.
    + by rewrite bool_decide_eq_true_2.
    + rewrite list_lookup_fmap in Hj.
      destruct (Slideshow.images s !! j); [|done]. injection Hj as <-. simpl.
      by rewrite bool_decide_eq_false_2.
  - rewrite list_fmap_insert, deactivated_twice. apply list_insert_id.
    by rewrite list_lookup_fmap, Himg.
Qed.

Lemma same_data_length imgs imgs' :
  Slideshow.deactivated <$> imgs' = Slideshow.deactivated <$> imgs →
  length imgs' = length imgs.
Proof. intros H. apply (f_equal length) in H. by rewrite !length_fmap in H. Qed.

Lemma same_data_lookup imgs imgs' (j : nat) (img : Slideshow.image) :
  Slideshow.deactivated <$> imgs' = Slideshow.deactivated <$> imgs →
  imgs !! j = Some img →
  ∃ img', imgs' !! j = Some img' ∧ Slideshow.title img' = Slideshow.title img ∧
          Slideshow.year img' = Slideshow.year img.
Proof.
  intros H Hj. apply (f_equal (λ l, l !! j)) in H.
  rewrite !list_lookup_fmap, Hj in H.
  destruct (imgs' !! j) as [img'|]; [|done]. injection H as Ht Hy. by exists img'.
Qed.

Lemma titled_caption (el : option string) (img : Slideshow.image) :
  titled_image img → is_Some el →
  Slideshow.caption el (Slideshow.title img) = Slideshow.title img.
Proof.
  intros (text & Ht & Hne) [old ->]. rewrite Ht. simpl.
  by destruct (String.eqb_spec text "").
Qed.

(** The slideshow after [k] more ticks, from a state that shows the image
    at [i]. *)
Lemma ticks_shows imgs (k : nat) :
  ∀ s (i : nat),
    (i < length imgs)%nat →
    shows s i →
    Slideshow.deactivated <$> Slideshow.images s = Slideshow.deactivated <$> imgs →
    ∃ s', Slideshow.ticks k s = Some s' ∧
          shows s' ((i + k) mod length imgs)%nat ∧
          Slideshow.deactivated <$> Slideshow.images s' = Slideshow.deactivated <$> imgs ∧
          (Forall titled_image imgs →
           Slideshow.titleEl s = imgs !! i ≫= Slideshow.title →
           Slideshow.titleEl s'
           = imgs !! ((i + k) mod length imgs)%nat ≫= Slideshow.title).
Proof.
  induction k as [|k IH]; intros s i Hi Hshows Hdata.
  { exists s. rewrite Nat.add_0_r, Nat.mod_small by done. by eauto. }
  simpl. unfold Slideshow.nextImage. cbv zeta.
  rewrite (same_data_length _ _ Hdata).
  set (index := ((Slideshow.currentIndex s + 1) mod length imgs)%nat).
  assert (index < length imgs)%nat as Hindex by (apply Nat.mod_upper_bound; lia).
  destruct (lookup_lt_is_Some_2 imgs index Hindex) as [img Himg].
  destruct (same_data_lookup _ _ _ _ Hdata Himg) as (img' & Himg' & Ht & Hy).
  destruct (showImage_shows index
              {| Slideshow.currentIndex := index; Slideshow.images := Slideshow.images s;
                 Slideshow.titleEl := Slideshow.titleEl s;
                 Slideshow.yearEl := Slideshow.yearEl s |} img' Himg')
    as (s1 & -> & Hcur & Hact & Hdata1 & Htitle & _).
  simpl in Hcur, Hdata1, Htitle. simpl.
  destruct (IH s1 index Hindex) as (s' & Hticks & Hshows' & Hdata' & Hcaption);
    [by split|congruence|].
  exists s'. split; [done|].
  assert (((index + k) mod length imgs)%nat = ((i + S k) mod length imgs)%nat) as <-.
  { unfold index. destruct Hshows as [-> _].
    rewrite Nat.Div0.add_mod_idemp_l. f_equal. lia. }
  split; [done|]. split; [done|].
  intros Htitled Hel. apply Hcaption; [done|].
  rewrite Htitle, Ht, Himg. simpl.
  destruct (lookup_lt_is_Some_2 imgs i Hi) as [img0 Himg0].
  rewrite <-Ht. apply titled_caption.
  - rewrite Forall_forall in Htitled. unfold titled_image. rewrite Ht.
    apply Htitled. by eapply list_elem_of_lookup_2.
  - rewrite Hel, Himg0. simpl.
    rewrite Forall_forall in Htitled.
    destruct (Htitled img0) as (text & -> & _); [by eapply list_elem_of_lookup_2|done].
Qed.

Lemma start_shows (r : nat) imgs (titleEl yearEl : option string) :
  (r < length imgs)%nat →
  ∃ s, Slideshow.start r imgs titleEl yearEl = Some s ∧
       shows s r ∧
       Slideshow.deactivated <$> Slideshow.images s = Slideshow.deactivated <$> imgs ∧
       (Forall titled_image imgs → is_Some titleEl →
        Slideshow.titleEl s = imgs !! r ≫= Slideshow.title).
Proof.
  intros Hr. unfold Slideshow.start.
  rewrite bool_decide_eq_false_2 by lia.
  destruct (lookup_lt_is_Some_2 imgs r Hr) as [img Himg].
  destruct (showImage_shows r
              {| Slideshow.currentIndex := r; Slideshow.images := imgs;
                 Slideshow.titleEl := titleEl; Slideshow.yearEl := yearEl |} img Himg)
    as (s & -> & Hcur & Hact & Hdata & Htitle & _).
  simpl in Hcur, Hdata, Htitle.
  exists s. split; [done|]. split; [by split|]. split; [done|].
  intros Htitled Hel. rewrite Htitle, Himg. simpl. apply titled_caption; [|done].
  rewrite Forall_forall in Htitled. apply Htitled. by eapply list_elem_of_lookup_2.
Qed.

End slideshow.

(** X18. A slideshow shows one image at a time and goes round: started on
    the image at position r of n, after k ticks it has not failed, exactly
    the image at position (r + k) mod n is active, and the data of the
    images are as they were. *)
Theorem slideshow_goes_round (r k : nat) (imgs : list Slideshow.image)
    (titleEl yearEl : option string) :
  (r < length imgs)%nat →
  ∃ s, Slideshow.start r imgs titleEl yearEl ≫= Slideshow.ticks k = Some s ∧
       shows s ((r + k) mod length imgs)%nat ∧
       Slideshow.deactivated <$> Slideshow.images s = Slideshow.deactivated <$> imgs.
Proof.
  intros Hr.
  destruct (start_shows r imgs titleEl yearEl Hr) as (s0 & -> & Hshows & Hdata & _).
  destruct (ticks_shows imgs k s0 r Hr Hshows Hdata) as (s & Hticks & Hs & Hdata' & _).
  by exists s.
Qed.

Lemma slideshow_goes_round_witness :
  ∃ s, Slideshow.start 1 Sample.stills None None ≫= Slideshow.ticks 5 = Some s ∧
       shows s 0%nat ∧
       Slideshow.deactivated <$> Slideshow.images s
       = Slideshow.deactivated <$> Sample.stills.
Proof.
  apply (slideshow_goes_round 1 5 Sample.stills None None). simpl. lia.
Defined.

(** X19. The caption follows the image: when the overlay has a title
    element and every image carries a title, the title shown after any
    number of ticks is the title of the image that is active. *)
Theorem caption_follows_image (r k : nat) (imgs : list Slideshow.image)
    (text : string) (yearEl : option string) :
  (r < length imgs)%nat →
  Forall titled_image imgs →
  ∃ s, Slideshow.start r imgs (Some text) yearEl ≫= Slideshow.ticks k = Some s ∧
       Slideshow.titleEl s = imgs !! ((r + k) mod length imgs)%nat ≫= Slideshow.title.
Proof.
  intros Hr Htitled.
  destruct (start_shows r imgs (Some text) yearEl Hr) as (s0 & -> & Hshows & Hdata & Hcap).
  destruct (ticks_shows imgs k s0 r Hr Hshows Hdata) as (s & Hticks & _ & _ & Hcap').
  exists s. split; [done|]. apply Hcap'; [done|]. by apply Hcap.
Qed.

Lemma caption_follows_image_witness :
  ∃ s, Slideshow.start 2 Sample.stills (Some "") None ≫= Slideshow.ticks 2 = Some s ∧
       Slideshow.titleEl s = Some "Oma maa".
Proof.
  apply (caption_follows_image 2 2 Sample.stills "" None).
  - simpl. lia.
  - repeat constructor; by eexists.
Defined.

(** * The list after a change *)
Section listing.

Lemma run_get_movies (w : world) :
  Handler.get_movies w
  = (Return {| status := 200;
               sent := JsonMovies (merge_sort Movie.order_by
                                     (snd <$> map_to_list (rows (db w)))) |}, w).
Proof. by destruct w. Qed.

End listing.

(** X20. A created record is listed: after a create that answers 201 with
    a row, GET /api/movies returns that row together with exactly the rows
    it returned before the create. *)
Theorem created_movie_is_listed (e : env) (req : request) (w w' : world) (resp : response) :
  App.create e req w = (Return resp, w') →
  status resp = 201 →
  ∃ (m : Movie.t) (before after : list Movie.t),
    sent resp = JsonMovie m ∧
    Handler.get_movies w = (Return {| status := 200; sent := JsonMovies before |}, w) ∧
    Handler.get_movies w' = (Return {| status := 200; sent := JsonMovies after |}, w') ∧
    after ≡ₚ m :: before.
Proof.
  intros Hrun Hstatus.
  apply create_cases in Hrun as (resp' & [= <-] & [(H500 & _)|Hok]); [congruence|].
  destruct Hok as (file & w1 & vs & rowid & m & Hup & _ & Hnext & _ & -> & ->).
  apply single_db in Hup. apply next_rowid_fresh in Hnext as (_ & Hfresh & _).
  eexists m, _, _. split; [done|].
  split; [apply run_get_movies|]. split; [apply run_get_movies|].
  rewrite !merge_sort_Permutation. simpl.
  rewrite map_to_list_insert by done. simpl. by rewrite Hup.
Qed.

Lemma created_movie_is_listed_witness :
  ∃ (m : Movie.t) (after : list Movie.t),
    Movie.title m = "Test Film" ∧
    Handler.get_movies (Sample.one_movie ∅)
      = (Return {| status := 200; sent := JsonMovies after |}, Sample.one_movie ∅) ∧
    after ≡ₚ [m].
Proof.
  set (m := {| Movie.id := 1; Movie.title := "Test Film"; Movie.year := SNull;
               Movie.poster_url := None;
               Movie.poster_local := Some Sample.stored_png;
               Movie.dop := None; Movie.bobo_crew := None; Movie.imdb_url := None;
               Movie.tmdb_url := None; Movie.trailer_url := None;
               Movie.production_company := None; Movie.synopsis := None;
               Movie.created_at := "2024-01-01 00:00:00";
               Movie.updated_at := "2024-01-01 00:00:00" |}).
  destruct (created_movie_is_listed Sample.clock (Sample.form "" "Test Film" (Some Sample.png))
              (App.installed ∅ ∅) (Sample.one_movie ∅)
              {| status := 201; sent := JsonMovie m |})
    as (m' & before & after & Hm & Hbefore & Hafter & Hperm);
    [by vm_compute|reflexivity|].
  injection Hm as <-. rewrite run_get_movies in Hbefore. injection Hbefore as <-.
  exists m, after. split; [reflexivity|]. split; [exact Hafter|exact Hperm].
Defined.

(** X21. A deleted record is no longer listed: before a delete that
    answers 200, GET /api/movies returned the rows it returns afterwards
    together with one more row, the one stored under the id of the
    request. *)
Theorem deleted_movie_is_unlisted (req : request) (w w' : world) (resp : response) :
  Handler.delete_movie req w = (Return resp, w') →
  status resp = 200 →
  ∃ (k : Z) (old : Movie.t) (before after : list Movie.t),
    Db.rowid_of (SText (params_id req)) = Some k ∧
    rows (db w) !! k = Some old ∧
    Handler.get_movies w = (Return {| status := 200; sent := JsonMovies before |}, w) ∧
    Handler.get_movies w' = (Return {| status := 200; sent := JsonMovies after |}, w') ∧
    before ≡ₚ old :: after.
Proof.
  intros Hrun Hstatus.
  destruct (delete_cases _ _ _ _ Hrun) as [(_ & [= ->] & _)|(k & old & Hk & Hold)]; [done|].
  rewrite (delete_existing req w k old Hk Hold) in Hrun. cbv beta zeta in Hrun.
  assert (rows (db w') = delete k (rows (db w))) as Hrows.
  { repeat case_match; by simplify_eq. }
  eexists k, old, _, _. split; [done|]. split; [done|].
  split; [apply run_get_movies|]. split; [apply run_get_movies|].
  rewrite !merge_sort_Permutation, Hrows.
  rewrite <-(insert_delete_id (rows (db w)) k old Hold) at 1.
  rewrite map_to_list_insert by apply lookup_delete_eq. done.
Qed.

Lemma deleted_movie_is_unlisted_witness :
  ∃ (old : Movie.t) (before : list Movie.t),
    Movie.title old = "Test Film" ∧
    Handler.get_movies (Sample.one_movie ∅)
      = (Return {| status := 200; sent := JsonMovies before |}, Sample.one_movie ∅) ∧
    before ≡ₚ [old].
Proof.
  destruct (deleted_movie_is_unlisted (Sample.form "1" "" None) (Sample.one_movie ∅)
              Sample.emptied
              {| status := 200; sent := JsonMessage "Movie deleted successfully" |})
    as (k & old & before & after & Hk & Hold & Hbefore & Hafter & Hperm);
    [by vm_compute|reflexivity|].
  rewrite run_get_movies in Hafter. injection Hafter as <-.
  assert (k = 1) as -> by (vm_compute in Hk; congruence).
  exists old, before. split; [|split; [exact Hbefore|exact Hperm]].
  vm_compute in Hold. by injection Hold as <-.
Defined.

(** X22. An update can be read back: after an update that answers 200
    with a row, a GET for the id of the request answers 200 with the same
    row, and the row is listed in place of the one it replaced. *)
Theorem get_after_update (e : env) (req : request) (w w' : world) (resp : response) :
  App.update e req w = (Return resp, w') →
  status resp = 200 →
  ∃ (k : Z) (old m : Movie.t) (before after : list Movie.t),
    sent resp = JsonMovie m ∧
    rows (db w) !! k = Some old ∧
    Handler.get_movie req w' = (Return {| status := 200; sent := JsonMovie m |}, w') ∧
    Handler.get_movies w = (Return {| status := 200; sent := JsonMovies before |}, w) ∧
    Handler.get_movies w' = (Return {| status := 200; sent := JsonMovies after |}, w') ∧
    old :: after ≡ₚ m :: before.
Proof.
  intros Hrun Hstatus.
  apply update_cases in Hrun as (resp' & [= <-] & [(H500 & _)|[(H404 & _)|Hok]]);
    [congruence..|].
  destruct Hok as (file & w1 & k & old & vs & m & _ & Hk & Hold & _ & _ & -> & ->).
  eexists k, old, m, _, _. split; [done|]. split; [done|].
  split; [|split; [apply run_get_movies|split; [apply run_get_movies|]]].
  - rewrite run_get_movie, Hk. simpl. by rewrite lookup_insert_eq.
  - rewrite !merge_sort_Permutation. simpl.
    rewrite <-(insert_delete_id (rows (db w)) k old Hold) at 2.
    rewrite <-insert_delete_eq.
    rewrite !map_to_list_insert by apply lookup_delete_eq. simpl.
    apply Permutation_swap.
Qed.

Lemma get_after_update_witness :
  ∃ m : Movie.t,
    Movie.title m = "New title" ∧
    Handler.get_movie (Sample.form "1" "New title" None)
      (App.update Sample.later (Sample.form "1" "New title" None) (Sample.one_movie ∅)).2
    = (Return {| status := 200; sent := JsonMovie m |},
       (App.update Sample.later (Sample.form "1" "New title" None) (Sample.one_movie ∅)).2).
Proof.
  destruct (App.update Sample.later (Sample.form "1" "New title" None)
              (Sample.one_movie ∅)) as [o w'] eqn:Hrun.
  assert (∃ m, o = Return {| status := 200; sent := JsonMovie m |} ∧
               Movie.title m = "New title") as (m0 & -> & Htitle).
  { vm_compute in Hrun. injection Hrun as <- _. eexists; split; reflexivity. }
  destruct (get_after_update _ _ _ _ _ Hrun eq_refl)
    as (k & old & m & before & after & Hm & _ & Hget & _).
  injection Hm as <-. exists m0. by split.
Defined.

(** * The customary trailer addresses *)

(** X23. For the two customary spellings of a YouTube address, the
    address embedded is that of the video named in it: the identifier is
    what stands between [watch?v=] (or [youtu.be/]) and the first [&] or the
    end, and whatever follows that [&] (a start time, a playlist) is
    dropped. *)
Theorem customary_urls_embed (id rest : string) :
  id ≠ "" → no_amp id → ends_id rest →
  Client.getEmbedUrl ("https://www.youtube.com/watch?v=" ++ id ++ rest) = embed_url id ∧
  Client.getEmbedUrl ("https://youtu.be/" ++ id ++ rest) = embed_url id.
Proof. intros Hne Hid Hrest. split; [by apply getEmbedUrl_watch|by apply getEmbedUrl_short]. Qed.

Lemma customary_urls_embed_witness :
  Client.getEmbedUrl "https://www.youtube.com/watch?v=4dAaLbsQSzI&t=30s"
  = "https://www.youtube.com/embed/4dAaLbsQSzI?autoplay=1&rel=0" ∧
  Client.getEmbedUrl "https://youtu.be/4dAaLbsQSzI&t=30s"
  = "https://www.youtube.com/embed/4dAaLbsQSzI?autoplay=1&rel=0".
Proof.
  apply (customary_urls_embed "4dAaLbsQSzI" "&t=30s").
  - discriminate.
  - apply (until_amp_no_amp "4dAaLbsQSzI").
  - right. by eexists.
Defined.
